(** * ngenLoss: the combined training loss of src/neuralngen/training/loss.py

    A shallow embedding of the class [ngenLoss] (methods [forward],
    [variogram_loss], [fdc_loss], [var_hyd_char]) and the properties of the
    specification checked against it.

    Modelling conventions.
    - A tensor element is an extended rational [fval]: a finite value, one of
      the two infinities, or NaN.  Arithmetic on finite values is exact:
      rounding, overflow and the sign of zero are abstracted; what IEEE-754
      prescribes for NaN and the infinities (NaN propagation, inf - inf,
      0 * inf, 0 / 0) is written out.
    - A tensor is its shape together with its elements in row-major order, as
      a contiguous torch tensor stores them.
    - Python exceptions are values of [exn]; a computation returns
      [Ok v] or [Raise e].  The process-wide generator behind
      [random.uniform] is an explicit state threaded through the calls.
    - Shapes beyond those the docstrings document ([B, T, D] inputs, a
      [B, B] distance matrix) are reported as [ShapeError]; torch's
      broadcasting of unequal shapes is outside the model, so a property
      of [forward]'s masking step is stated for operands of one shape.
    - The arithmetic of Python floats ([random.uniform], the product
      [quantile * ts.shape[1]]) is exact as well.  A property that depends
      on the value of such a product is stated under the hypothesis that
      the binary64 product is exact ([is_double]); a property that only
      needs the product to be finite is stated for levels and bounds in
      [0, 1] ([unit_level]), where no binary64 operation overflows. *)

From Stdlib Require Import QArith Qcanon Qround ZArith.
From stdpp Require Import base numbers list sorting gmap strings.

Local Open Scope Qc_scope.

(** ** Floating-point values *)

Inductive fval : Type :=
| NaN
| PInf
| NInf
| Fin (q : Qc).

Global Instance fval_eq_dec : EqDecision fval.
Proof. solve_decision. Defined.

Inductive sign : Type := Neg | Zero | Pos.

Definition Qc_sign (q : Qc) : sign :=
  match (q ?= 0)%Qc with Lt => Neg | Eq => Zero | Gt => Pos end.

Definition sign_mul (s1 s2 : sign) : sign :=
  match s1, s2 with
  | Zero, _ | _, Zero => Zero
  | Pos, Pos | Neg, Neg => Pos
  | _, _ => Neg
  end.

(** The sign of a value that is not NaN. *)
Definition fsign (x : fval) : sign :=
  match x with
  | NaN => Zero
  | PInf => Pos
  | NInf => Neg
  | Fin q => Qc_sign q
  end.

(** The infinity of a given sign; an undetermined sign (0 * inf, 0 / 0)
    gives NaN. *)
Definition inf_of_sign (s : sign) : fval :=
  match s with Pos => PInf | Neg => NInf | Zero => NaN end.

Definition fopp (x : fval) : fval :=
  match x with
  | NaN => NaN
  | PInf => NInf
  | NInf => PInf
  | Fin q => Fin (- q)
  end.

Definition fadd (x y : fval) : fval :=
  match x, y with
  | NaN, _ | _, NaN => NaN
  | PInf, NInf | NInf, PInf => NaN
  | PInf, _ | _, PInf => PInf
  | NInf, _ | _, NInf => NInf
  | Fin a, Fin b => Fin (a + b)
  end.

Definition fsub (x y : fval) : fval := fadd x (fopp y).

Definition fmul (x y : fval) : fval :=
  match x, y with
  | NaN, _ | _, NaN => NaN
  | Fin a, Fin b => Fin (a * b)
  | _, _ => inf_of_sign (sign_mul (fsign x) (fsign y))
  end.

(** Division; a zero divisor counts as +0. *)
Definition fdiv (x y : fval) : fval :=
  match x, y with
  | NaN, _ | _, NaN => NaN
  | Fin a, Fin b =>
      if decide (b = 0) then inf_of_sign (Qc_sign a) else Fin (a / b)
  | Fin _, _ => Fin 0
  | _, Fin b =>
      inf_of_sign (sign_mul (fsign x) (if decide (b = 0) then Pos else Qc_sign b))
  | _, _ => NaN
  end.

Definition fabs (x : fval) : fval :=
  match x with
  | NaN => NaN
  | PInf | NInf => PInf
  | Fin q => Fin (if decide (q < 0) then - q else q)
  end.

Fixpoint fpow_nat (x : fval) (n : nat) : fval :=
  match n with
  | O => Fin 1
  | S k => fmul x (fpow_nat x k)
  end.

(** [x ** n] for an integer exponent. *)
Definition fpow (x : fval) (n : Z) : fval :=
  match n with
  | Z0 => Fin 1
  | Zpos p => fpow_nat x (Pos.to_nat p)
  | Zneg p => fdiv (Fin 1) (fpow_nat x (Pos.to_nat p))
  end.

(** The order [torch.sort] uses: NaN is greater than every number. *)
Definition sort_le (x y : fval) : Prop :=
  match x, y with
  | _, NaN => True
  | NaN, _ => False
  | _, PInf => True
  | PInf, _ => False
  | NInf, _ => True
  | _, NInf => False
  | Fin a, Fin b => a ≤ b
  end.

Global Instance sort_le_dec : RelDecision sort_le.
Proof. intros [| | |a] [| | |b]; simpl; apply _. Defined.

Definition sort_ge : relation fval := flip sort_le.

Global Instance sort_ge_dec : RelDecision sort_ge.
Proof. intros x y. unfold sort_ge, flip. apply _. Defined.

(** The IEEE comparison [x < y]: false as soon as one side is NaN. *)
Definition fltb (x y : fval) : bool :=
  match x, y with
  | NaN, _ | _, NaN => false
  | _, _ => negb (bool_decide (sort_le y x))
  end.

(** [x > 0] on a Python float. *)
Definition fpositive (x : fval) : bool := fltb (Fin 0) x.

(** [torch.clamp(x, min=0.0)]: NaN stays NaN. *)
Definition clamp_min0 (x : fval) : fval :=
  if fltb x (Fin 0) then Fin 0 else x.

Definition is_nan (x : fval) : bool :=
  match x with NaN => true | _ => false end.

Definition finite (x : fval) : Prop :=
  match x with Fin _ => True | _ => False end.

Global Instance finite_dec x : Decision (finite x).
Proof. destruct x; simpl; apply _. Defined.

(** [0 <= x] as a proposition on values; NaN is not. *)
Definition fnonneg (x : fval) : Prop :=
  match x with
  | Fin q => 0 ≤ q
  | PInf => True
  | _ => False
  end.

Definition fsum (l : list fval) : fval := foldl fadd (Fin 0) l.

(** The mean of the elements of a tensor: sum over count, so an empty
    selection gives 0 / 0 = NaN. *)
Definition fmean (l : list fval) : fval :=
  fdiv (fsum l) (Fin (Qc_of_Z (Z.of_nat (length l)))).

Definition torch_sort_desc (l : list fval) : list fval := merge_sort sort_ge l.
Definition torch_sort_asc (l : list fval) : list fval := merge_sort sort_le l.

(** ** Exceptions, results and the random source *)

Inductive type_error : Type :=
| MultipleValues (param : string)
| UnexpectedKeyword (kw : string)
| TooManyPositional
| MissingArgument (param : string)
| BadOperand.

Inductive exn : Type :=
| AttributeError (attr : string)
| KeyError (key : string)
| TypeError (why : type_error)
| ValueError (msg : string)
| OverflowError
| IndexError
| ShapeError.

Inductive result (A : Type) : Type :=
| Ok (a : A)
| Raise (e : exn).
Arguments Ok {A} a.
Arguments Raise {A} e.

Global Instance type_error_eq_dec : EqDecision type_error.
Proof. solve_decision. Defined.

Global Instance exn_eq_dec : EqDecision exn.
Proof. solve_decision. Defined.

Global Instance result_eq_dec {A} `{EqDecision A} : EqDecision (result A).
Proof. solve_decision. Defined.

Global Instance result_ret : MRet result := λ A a, Ok a.
Global Instance result_bind : MBind result := λ A B f m,
  match m with Ok a => f a | Raise e => Raise e end.

(** The generator behind Python's [random] module: the sequence of values
    [random.random()] will return, and how many were consumed. *)
Record rng : Type := Rng { draws : nat → Qc; cursor : nat }.

(** Computations that may raise and may draw random numbers. *)
Definition M (A : Type) : Type := rng → result (A * rng).

Global Instance M_ret : MRet M := λ A a g, Ok (a, g).
Global Instance M_bind : MBind M := λ A B f m g,
  match m g with Ok (a, g') => f a g' | Raise e => Raise e end.

Definition lift {A} (r : result A) : M A :=
  λ g, match r with Ok a => Ok (a, g) | Raise e => Raise e end.

Definition raise {A} (e : exn) : M A := λ _, Raise e.

Definition random_random : M fval :=
  λ g, Ok (Fin (draws g (cursor g)), Rng (draws g) (S (cursor g))).

(** [random.uniform(a, b)] is [a + (b - a) * random()]; the three
    operations are exact here, where the code rounds each to binary64. *)
Definition random_uniform (a b : fval) : M fval :=
  u ← random_random; mret (fadd a (fmul (fsub b a) u)).

(** ** Tensors *)

Record tensor (A : Type) : Type := Tensor { shape : list nat; elems : list A }.
Arguments Tensor {A} shape elems.
Arguments shape {A} t.
Arguments elems {A} t.

Global Instance tensor_eq_dec {A} `{EqDecision A} : EqDecision (tensor A).
Proof. solve_decision. Defined.

Definition numel (sh : list nat) : nat := foldr Nat.mul 1%nat sh.

(** A tensor holds as many elements as its shape announces. *)
Definition wf {A} (t : tensor A) : Prop := length (elems t) = numel (shape t).

Definition isnan (t : tensor fval) : tensor bool :=
  Tensor (shape t) (is_nan <$> elems t).

(** [~m] on a boolean tensor. *)
Definition invert (m : tensor bool) : tensor bool :=
  Tensor (shape m) (negb <$> elems m).

Definition zeros_like (t : tensor fval) : tensor fval :=
  Tensor (shape t) ((λ _, Fin 0) <$> elems t).

(** [torch.where(cond, a, b)] on operands of one shape; operands of
    unequal shapes, which torch broadcasts where it can, are reported as
    [ShapeError]. *)
Definition torch_where (cond : tensor bool) (a b : tensor fval)
  : result (tensor fval) :=
  if decide (shape cond = shape a ∧ shape a = shape b) then
    Ok (Tensor (shape a)
          (zip_with (λ c ab, if c : bool then ab.1 else ab.2)
                    (elems cond) (zip (elems a) (elems b))))
  else Raise ShapeError.

(** The elements a boolean mask selects, in row-major order. *)
Fixpoint select {A} (l : list A) (m : list bool) : list A :=
  match l, m with
  | x :: l', b :: m' => if b then x :: select l' m' else select l' m'
  | _, _ => []
  end.

(** [t[mask]] for a mask of the shape of [t]: a rank-1 tensor. *)
Definition masked_select (t : tensor fval) (mask : tensor bool)
  : result (tensor fval) :=
  if decide (shape mask = shape t) then
    let l := select (elems t) (elems mask) in Ok (Tensor [length l] l)
  else Raise IndexError.

(** [t.flatten()]. *)
Definition flatten (t : tensor fval) : tensor fval :=
  Tensor [length (elems t)] (elems t).

(** [F.mse_loss(input, target)] with the default mean reduction. *)
Definition mse_loss (input target : tensor fval) : result fval :=
  if decide (shape input = shape target) then
    Ok (fmean (zip_with (λ a b, fpow (fsub a b) 2) (elems input) (elems target)))
  else Raise ShapeError.

(** The mean over all entries of [|a[:, None] - b[None, :]|] for rank-1
    operands: entry (i, j) is [|a_i - b_j|]. *)
Definition cross_abs_diff (a b : list fval) : list fval :=
  x ← a; (λ y, fabs (fsub x y)) <$> b.

(** ** Rank-3 tensors [B, T, D] and reductions along the time axis *)

(** Element (b, t, d) of row-major elements of shape [B, T, D]. *)
Definition entry3 (T D : nat) (l : list fval) (b t d : nat) : fval :=
  default NaN (l !! ((b * T + t) * D + d)%nat).

(** The time series [ts[b, :, d]]. *)
Definition series (T D : nat) (l : list fval) (b d : nat) : list fval :=
  (λ t, entry3 T D l b t d) <$> seq 0 T.

(** A reduction of the time axis: the result has shape [B, D]. *)
Definition reduce_dim1 (f : list fval → fval) (B T D : nat) (l : list fval)
  : tensor fval :=
  Tensor [B; D] (b ← seq 0 B; (λ d, f (series T D l b d)) <$> seq 0 D).

(** [ts.sort(dim=1, descending=True)]: the sorted values. *)
Definition sort_dim1_desc (B T D : nat) (l : list fval) : list fval :=
  b ← seq 0 B; t ← seq 0 T;
  (λ d, default NaN (torch_sort_desc (series T D l b d) !! t)) <$> seq 0 D.

(** [t[:, index, :]] on shape [B, T, D], with Python's negative indices. *)
Definition index_dim1 (B T D : nat) (l : list fval) (index : Z)
  : result (tensor fval) :=
  let T' := Z.of_nat T in
  if decide (0 ≤ index < T')%Z then
    Ok (Tensor [B; D]
          (b ← seq 0 B; (λ d, entry3 T D l b (Z.to_nat index) d) <$> seq 0 D))
  else if decide (- T' ≤ index < 0)%Z then
    Ok (Tensor [B; D]
          (b ← seq 0 B;
           (λ d, entry3 T D l b (Z.to_nat (index + T')) d) <$> seq 0 D))
  else Raise IndexError.

(** [torch.median] of a series: the lower of the two middle values, NaN if
    a NaN is present. *)
Definition median_of (s : list fval) : fval :=
  if existsb is_nan s then NaN
  else default NaN (torch_sort_asc s !! ((length s - 1) / 2)%nat).

(** The square root is not a rational function: the model takes it from the
    numeric backend. *)
Class Backend := torch_sqrt : fval → fval.

(** [torch.std] of a series (Bessel's correction); NaN below two samples. *)
Definition std_of `{Backend} (s : list fval) : fval :=
  if decide (length s ≤ 1)%nat then NaN
  else
    let m := fmean s in
    torch_sqrt
      (fdiv (fsum ((λ x, fpow (fsub x m) 2) <$> s))
            (Fin (Qc_of_Z (Z.of_nat (length s) - 1)))).

(** The integer part of a rational: truncation toward zero. *)
Definition trunc (q : Qc) : Z := Z.quot (Qnum q) (Zpos (Qden q)).

(** [int(x)] on a Python float. *)
Definition py_int (x : fval) : result Z :=
  match x with
  | NaN => Raise (ValueError "cannot convert float NaN to integer")
  | PInf | NInf => Raise OverflowError
  | Fin q => Ok (trunc q)
  end.

(** ** The class [ngenLoss] *)

Record ngenLoss : Type := NgenLoss {
  distance_matrix : option (tensor fval);
  variogram_weight : fval;
  fdc_weight : fval;
  v_order : Z
}.

(** Python values that occur as arguments of the calls in this file. *)
Inductive pyval : Type :=
| PyModule (self : ngenLoss)
| PyTensor (t : tensor fval)
| PyMask (m : tensor bool)
| PyStr (s : string)
| PyFloat (x : fval)
| PyBool (b : bool)
| PyPair (lo hi : fval).

(** *** Argument binding of a Python call

    Positional arguments fill the parameters from the left; a keyword then
    names one of the remaining parameters; what is still unbound takes its
    default. *)

Definition signature : Type := list (string * option pyval).

Fixpoint bind_positional (ps : signature) (args : list pyval)
    (env : gmap string pyval) : result (gmap string pyval * signature) :=
  match args, ps with
  | [], _ => Ok (env, ps)
  | a :: args', (p, _) :: ps' => bind_positional ps' args' (<[p := a]> env)
  | _ :: _, [] => Raise (TypeError TooManyPositional)
  end.

Fixpoint bind_keywords (ps : signature) (kwargs : list (string * pyval))
    (env : gmap string pyval) : result (gmap string pyval * signature) :=
  match kwargs with
  | [] => Ok (env, ps)
  | (k, v) :: kwargs' =>
      if decide (is_Some (env !! k)) then Raise (TypeError (MultipleValues k))
      else if decide (k ∈ ps.*1) then
        bind_keywords (filter (λ p, p.1 ≠ k) ps) kwargs' (<[k := v]> env)
      else Raise (TypeError (UnexpectedKeyword k))
  end.

Fixpoint bind_defaults (ps : signature) (env : gmap string pyval)
  : result (gmap string pyval) :=
  match ps with
  | [] => Ok env
  | (p, Some v) :: ps' => bind_defaults ps' (<[p := v]> env)
  | (p, None) :: _ => Raise (TypeError (MissingArgument p))
  end.

Definition bind_args (ps : signature) (args : list pyval)
    (kwargs : list (string * pyval)) : result (gmap string pyval) :=
  '(env, ps) ← bind_positional ps args ∅;
  '(env, ps) ← bind_keywords ps kwargs env;
  bind_defaults ps env.

Section Loss.
Context `{Backend}.

(** *** [var_hyd_char]: one hydrograph characteristic per basin *)

(** The operand of a reduction along [dim=1] must have the documented
    rank. *)
Definition with_shape3 {A} (ts : tensor fval) (k : nat → nat → nat → M A)
  : M A :=
  match shape ts with
  | [B; T; D] => k B T D
  | _ => raise ShapeError
  end.

(** The body of [var_hyd_char], once its parameters are bound.  The product
    [quantile * ts.shape[1]] is the exact one: it is the product the code
    computes whenever that one is a binary64 value. *)
Definition var_hyd_char (ts : tensor fval) (method : string) (quantile : fval)
    (random_quantile : bool) (quantile_bounds : fval * fval) : M (tensor fval) :=
  if decide (method = "mean") then
    with_shape3 ts (λ B T D, mret (reduce_dim1 fmean B T D (elems ts)))
  else if decide (method = "median") then
    with_shape3 ts (λ B T D,
      if decide (T = 0)%nat then raise IndexError
      else mret (reduce_dim1 median_of B T D (elems ts)))
  else if decide (method = "std") then
    with_shape3 ts (λ B T D, mret (reduce_dim1 std_of B T D (elems ts)))
  else if decide (method = "quantile") then
    quantile ← (if random_quantile
                 then random_uniform quantile_bounds.1 quantile_bounds.2
                 else mret quantile);
    with_shape3 ts (λ B T D,
      let sorted_ts := sort_dim1_desc B T D (elems ts) in
      index ← lift (py_int (fmul quantile (Fin (Qc_of_Z (Z.of_nat T)))));
      let index := Z.max 0 (Z.min index (Z.of_nat T - 1)) in
      lift (index_dim1 B T D sorted_ts index))
  else
    raise (ValueError
             ("Unknown method for hydrograph characteristic: " +:+ method)).

(** The declaration [def var_hyd_char(ts, method="mean", quantile=0.25,
    random_quantile=False, quantile_bounds=(0.05, 0.95))]: no [self]. *)
Definition var_hyd_char_signature : signature :=
  [("ts", None);
   ("method", Some (PyStr "mean"));
   ("quantile", Some (PyFloat (Fin (Q2Qc (1 # 4)))));
   ("random_quantile", Some (PyBool false));
   ("quantile_bounds",
      Some (PyPair (Fin (Q2Qc (1 # 20))) (Fin (Q2Qc (19 # 20)))))].

(** A call of the function object [var_hyd_char]: the arguments are bound to
    the declared parameters, then the body runs.  Operands of another type
    than the docstring announces are reported as [BadOperand]. *)
Definition var_hyd_char_call (args : list pyval)
    (kwargs : list (string * pyval)) : M (tensor fval) :=
  env ← lift (bind_args var_hyd_char_signature args kwargs);
  match env !! "ts", env !! "method", env !! "quantile",
        env !! "random_quantile", env !! "quantile_bounds" with
  | Some (PyTensor ts), Some (PyStr method), Some (PyFloat quantile),
    Some (PyBool random_quantile), Some (PyPair lo hi) =>
      var_hyd_char ts method quantile random_quantile (lo, hi)
  | _, _, _, _, _ => raise (TypeError BadOperand)
  end.

(** [self.var_hyd_char(...)]: the method is found on the class and bound,
    so the instance is passed as the first positional argument. *)
Definition self_var_hyd_char (self : ngenLoss) (args : list pyval)
    (kwargs : list (string * pyval)) : M (tensor fval) :=
  var_hyd_char_call (PyModule self :: args) kwargs.

(** *** [variogram_loss] *)

(** [t.squeeze(-1)]: a trailing axis of size one is dropped. *)
Definition squeeze_last (t : tensor fval) : tensor fval :=
  match reverse (shape t) with
  | 1%nat :: sh => Tensor (reverse sh) (elems t)
  | _ => t
  end.

(** The rows of row-major elements of shape [B, D]. *)
Definition rows (B D : nat) (l : list fval) : list (list fval) :=
  (λ b, take D (drop (b * D) l)) <$> seq 0 B.

(** [torch.abs(t[:, None] - t[None, :]) ** v] for [t] of rank 1 or 2. *)
Definition pairwise_abs_diff_pow (v : Z) (t : tensor fval)
  : result (tensor fval) :=
  match shape t with
  | [B] =>
      Ok (Tensor [B; B]
            (x ← elems t; (λ y, fpow (fabs (fsub x y)) v) <$> elems t))
  | [B; D] =>
      Ok (Tensor [B; B; D]
            (r1 ← rows B D (elems t); r2 ← rows B D (elems t);
             zip_with (λ x y, fpow (fabs (fsub x y)) v) r1 r2))
  | _ => Raise ShapeError
  end.

(** An elementwise binary operation on operands of one shape. *)
Definition elementwise (f : fval → fval → fval) (a b : tensor fval)
  : result (tensor fval) :=
  if decide (shape a = shape b) then
    Ok (Tensor (shape a) (zip_with f (elems a) (elems b)))
  else Raise ShapeError.

(** Lines 100-110: the comparison of the pairwise differences of the two
    reduced series. *)
Definition variogram_compare (self : ngenLoss) (y_hat_flat y_flat : tensor fval)
  : result fval :=
  diff_obs ← pairwise_abs_diff_pow (v_order self) y_flat;
  diff_pred ← pairwise_abs_diff_pow (v_order self) y_hat_flat;
  loss_matrix ← elementwise (λ o p, fpow (fsub o p) 2) diff_obs diff_pred;
  loss_matrix ← match distance_matrix self with
                 | Some weight => elementwise fmul loss_matrix weight
                 | None => Ok loss_matrix
                 end;
  Ok (fmean (elems loss_matrix)).

Definition variogram_loss (self : ngenLoss) (y_hat y : tensor fval)
    (mask : tensor bool) : M fval :=
  let method := "quantile" in
  y_hat_red ← self_var_hyd_char self [PyTensor y_hat]
                 [("method", PyStr method); ("random_quantile", PyBool true)];
  let y_hat_flat := squeeze_last y_hat_red in
  y_red ← self_var_hyd_char self [PyTensor y]
             [("method", PyStr method); ("random_quantile", PyBool true)];
  let y_flat := squeeze_last y_red in
  lift (variogram_compare self y_hat_flat y_flat).

(** *** [fdc_loss] *)

Definition fdc_loss (self : ngenLoss) (y_hat y : tensor fval)
    (mask : tensor bool) : result fval :=
  y_hat_sel ← masked_select y_hat mask;
  let y_hat_flat := flatten y_hat_sel in
  y_sel ← masked_select y mask;
  let y_flat := flatten y_sel in
  if decide (length (elems y_flat) = 0)%nat then Ok (Fin 0)
  else
    let y_hat_sorted := torch_sort_desc (elems y_hat_flat) in
    let y_sorted := torch_sort_desc (elems y_flat) in
    let min_len := (length y_sorted `min` length y_hat_sorted)%nat in
    let y_hat_sorted := take min_len y_hat_sorted in
    let y_sorted := take min_len y_sorted in
    let cross_var := fmean (cross_abs_diff y_sorted y_hat_sorted) in
    let within_y := fmean (cross_abs_diff y_sorted y_sorted) in
    let within_hat := fmean (cross_abs_diff y_hat_sorted y_hat_sorted) in
    let fdc_divergence :=
      fsub cross_var (fmul (Fin (Q2Qc (1 # 2))) (fadd within_y within_hat)) in
    Ok (clamp_min0 fdc_divergence).

(** *** Attribute lookup and the objects [forward] shares *)

(** What the class body and [__init__] define on an instance. *)
Inductive member : Type :=
| Mforward
| Mvariogram_loss
| Mfdc_loss
| Mvar_hyd_char
| Mfield.

(** [self.<name>]: a name the class does not define raises
    [AttributeError]. *)
Definition getattr (self : ngenLoss) (name : string) : result member :=
  if decide (name = "forward") then Ok Mforward
  else if decide (name = "variogram_loss") then Ok Mvariogram_loss
  else if decide (name = "fdc_loss") then Ok Mfdc_loss
  else if decide (name = "var_hyd_char") then Ok Mvar_hyd_char
  else if decide (name ∈ ["distance_matrix"; "variogram_weight";
                           "fdc_weight"; "v_order"]) then Ok Mfield
  else Raise (AttributeError name).

(** The call [m(y_hat, y, mask)] of a bound member; only the two loss terms
    take these operands. *)
Definition call_loss_term (m : member) (self : ngenLoss)
    (y_hat y : tensor fval) (mask : tensor bool) : M fval :=
  match m with
  | Mvariogram_loss => variogram_loss self y_hat y mask
  | Mfdc_loss => lift (fdc_loss self y_hat y mask)
  | Mforward | Mvar_hyd_char | Mfield => raise (TypeError BadOperand)
  end.

(** Scalar tensors are objects: [loss = mse_loss] makes two names for one
    object, and [loss += x] updates that object in place.  The store maps
    object identities to their current values. *)
Definition store : Type := list fval.

Definition alloc (h : store) (v : fval) : store * nat := (h ++ [v], length h).

(** [r += v]. *)
Definition iadd (h : store) (r : nat) (v : fval) : store :=
  alter (λ x, fadd x v) r h.

Definition deref (h : store) (r : nat) : fval := default NaN (h !! r).

Definition getitem (d : gmap string (tensor fval)) (key : string)
  : result (tensor fval) :=
  match d !! key with
  | Some t => Ok t
  | None => Raise (KeyError key)
  end.

(** Lines 64-69: the mask, the zero-substituted arrays and the base error
    term. *)
Definition masked_mse (y_hat y : tensor fval)
  : result (tensor fval * tensor fval * tensor bool * fval) :=
  let mask := invert (isnan y) in
  y_hat ← torch_where mask y_hat (zeros_like y_hat);
  y ← torch_where mask y (zeros_like y);
  y_hat_sel ← masked_select y_hat mask;
  y_sel ← masked_select y mask;
  mse ← mse_loss y_hat_sel y_sel;
  Ok (y_hat, y, mask, mse).

(** One auxiliary term of [forward]: looked up as [self.<name>], called,
    added in place to the running total and recorded under [key]. *)
Definition add_term (self : ngenLoss) (weight : fval) (name key : string)
    (y_hat y : tensor fval) (mask : tensor bool) (loss : nat)
    (st : store * gmap string nat) : M (store * gmap string nat) :=
  if fpositive weight then
    m ← lift (getattr self name);
    term_value ← call_loss_term m self y_hat y mask;
    let '(h, term) := alloc st.1 term_value in
    let h := iadd h loss (fmul weight term_value) in
    mret (h, <[key := term]> st.2)
  else mret st.

(** [forward]: the total loss and the bundle of named losses, read once the
    call has returned. *)
Definition forward (self : ngenLoss)
    (prediction data : gmap string (tensor fval))
  : M (fval * gmap string fval) :=
  y_hat ← lift (getitem prediction "y_hat");
  y ← lift (getitem data "y");
  '(y_hat, y, mask, mse) ← lift (masked_mse y_hat y);
  let '(h, mse_loss) := alloc [] mse in
  let loss := mse_loss in
  let losses : gmap string nat := {[ "mse_loss" := mse_loss ]} in
  st ← add_term self (variogram_weight self) "_variogram_loss" "variogram_loss"
         y_hat y mask loss (h, losses);
  st ← add_term self (fdc_weight self) "_fdc_loss" "fdc_loss"
         y_hat y mask loss st;
  let losses := <[ "total_loss" := loss ]> st.2 in
  mret (deref st.1 loss, deref st.1 <$> losses).

End Loss.

(** ** A concrete backend and generators, to run the model *)

(** The square root of a rational, rounded down to a multiple of the
    reciprocal of its denominator; exact on squares of rationals. *)
Definition sqrt_down (x : fval) : fval :=
  match x with
  | NaN | NInf => NaN
  | PInf => PInf
  | Fin q =>
      if decide (q < 0) then NaN
      else Fin (Q2Qc (Z.sqrt (Qnum q * Zpos (Qden q)) # Qden q))
  end.

Global Instance rational_backend : Backend := sqrt_down.

(** A generator whose every draw is [u]. *)
Definition constant_rng (u : Qc) : rng := Rng (λ _, u) 0.

(** A generator that returns the elements of [us] in turn, then zero. *)
Definition list_rng (us : list Qc) : rng := Rng (λ n, default 0 (us !! n)) 0.

(** A rank-3 tensor of integers, for examples. *)
Definition tensor3_of_Z (B T D : nat) (l : list Z) : tensor fval :=
  Tensor [B; T; D] ((λ z, Fin (Qc_of_Z z)) <$> l).

(** ** Names for what [masked_mse] computes *)

(** The mask [~torch.isnan(y)] and the value [masked_mse] computes. *)
Definition valid_mask (y : tensor fval) : tensor bool := invert (isnan y).

Definition zero_fill (mask : tensor bool) (t : tensor fval) : tensor fval :=
  Tensor (shape t)
    (zip_with (λ c ab, if c : bool then ab.1 else ab.2) (elems mask)
       (zip (elems t) (elems (zeros_like t)))).

Definition squared_errors (y_hat y : tensor fval) : list fval :=
  zip_with (λ a b, fpow (fsub a b) 2)
    (select (elems y_hat) (elems (valid_mask y)))
    (select (elems y) (elems (valid_mask y))).

(** ** Inputs used in the examples *)

(** The constructor's defaults: both auxiliary weights 0.0, [v_order] 2. *)
Definition default_loss : ngenLoss := NgenLoss None (Fin 0) (Fin 0) 2.

Definition variogram_enabled_loss : ngenLoss := NgenLoss None (Fin 1) (Fin 0) 2.

(** A [2, 2] distance matrix with a zero diagonal. *)
Definition spatial_loss : ngenLoss :=
  NgenLoss (Some (Tensor [2; 2]%nat (Fin <$> [0; 1; 1; 0]))) (Fin 1) (Fin 0) 2.

(** [[1,2,3],[4,5,6]] reshaped as [2, 3, 1], and its reversed copy. *)
Definition t_123456 : tensor fval := tensor3_of_Z 2 3 1 [1; 2; 3; 4; 5; 6]%Z.
Definition t_654321 : tensor fval := tensor3_of_Z 2 3 1 [6; 5; 4; 3; 2; 1]%Z.

(** Two series of different spread, shape [2, 3, 1]. *)
Definition t_123457 : tensor fval := tensor3_of_Z 2 3 1 [1; 2; 3; 4; 5; 7]%Z.

(** One series of five steps, shape [1, 5, 1]. *)
Definition t_31524 : tensor fval := tensor3_of_Z 1 5 1 [3; 1; 5; 2; 4]%Z.

(** Arrays of shape [1, 2, 1]. *)
Definition t_12 : tensor fval := tensor3_of_Z 1 2 1 [1; 2]%Z.
Definition t_92 : tensor fval := tensor3_of_Z 1 2 1 [9; 2]%Z.
Definition t_nan_nan : tensor fval := Tensor [1; 2; 1]%nat [NaN; NaN].
Definition t_nan_2 : tensor fval := Tensor [1; 2; 1]%nat [NaN; Fin (Qc_of_Z 2)].

(** A single infinite entry, shape [1, 1, 1]. *)
Definition t_inf : tensor fval := Tensor [1; 1; 1]%nat [PInf].

(** Predictions 1 and 7, shape [1, 2, 1]. *)
Definition t_17 : tensor fval := tensor3_of_Z 1 2 1 [1; 7]%Z.

(** An array with an empty time axis, shape [2, 0, 1]. *)
Definition t_no_steps : tensor fval := Tensor [2; 0; 1]%nat [].

(** ** The quantile rule as the specification words it *)

(** Python's [round]: to the nearest integer, ties to the even one. *)
Definition py_round (q : Qc) : Z :=
  let f := Qfloor q in
  let r := (q - Qc_of_Z f)%Qc in
  if decide (r < Q2Qc (1 # 2)) then f
  else if decide (Q2Qc (1 # 2) < r) then (f + 1)%Z
  else if Z.even f then f else (f + 1)%Z.

(** "picks index clamp(round(quantile x T), 0, T-1)". *)
Definition spec_quantile_index (q : Qc) (T : nat) : Z :=
  Z.max 0 (Z.min (py_round (q * Qc_of_Z (Z.of_nat T))) (Z.of_nat T - 1)).

(** The index the code computes for a finite quantile level. *)
Definition code_quantile_index (q : Qc) (T : nat) : Z :=
  Z.max 0 (Z.min (trunc (q * Qc_of_Z (Z.of_nat T))) (Z.of_nat T - 1)).

(** ** Python floats *)

(** 2 to the power [e], for an integer [e]. *)
Definition pow2 (e : Z) : Qc :=
  if decide (0 ≤ e)%Z then Qc_of_Z (2 ^ e) else / Qc_of_Z (2 ^ (- e)).

(** The rationals a Python float (IEEE-754 binary64) holds: [m * 2^e] with
    a significand below 2^53 and an exponent between -1074 and 971.  An
    operation on floats whose exact result is such a value returns it. *)
Definition is_double (q : Qc) : Prop :=
  ∃ m e : Z, (Z.abs m < 2 ^ 53)%Z ∧ (-1074 ≤ e ≤ 971)%Z ∧
             q = Qc_of_Z m * pow2 e.

(** A quantile level, or a bound for one, in the documented range
    [0, 1]. *)
Definition unit_level (x : fval) : Prop :=
  match x with Fin q => 0 ≤ q ∧ q ≤ 1 | _ => False end.

(** The quantile level [random.uniform(0.05, 0.95)] returns from the next
    draw of the generator. *)
Definition drawn_level (g : rng) : Qc :=
  Q2Qc (1 # 20) + (Q2Qc (19 # 20) + - Q2Qc (1 # 20)) * draws g (cursor g).

(** The entries of the descending sort of each series at position [k]. *)
Definition sorted_series_at (B T D : nat) (l : list fval) (k : nat)
  : tensor fval :=
  Tensor [B; D]
    (b ← seq 0 B;
     (λ d, default NaN (torch_sort_desc (series T D l b d) !! k)) <$> seq 0 D).

(** * Properties *)

(** ** Arithmetic on values *)

Lemma fadd_nan_r x : fadd x NaN = NaN.
Proof. by destruct x. Qed.

Lemma foldl_fadd_nan l : foldl fadd NaN l = NaN.
Proof. induction l as [|x l IH]; simpl; [done|]. exact IH. Qed.

Lemma foldl_fadd_has_nan l a : NaN ∈ l → foldl fadd a l = NaN.
Proof.
  revert a. induction l as [|x l IH]; intros a Hin.
  - by apply elem_of_nil in Hin.
  - apply elem_of_cons in Hin as [<- | Hin]; simpl.
    + rewrite fadd_nan_r. apply foldl_fadd_nan.
    + by apply IH.
Qed.

Lemma fsum_nan l : NaN ∈ l → fsum l = NaN.
Proof. apply foldl_fadd_has_nan. Qed.

Lemma fmean_nan l : NaN ∈ l → fmean l = NaN.
Proof. intros Hin. unfold fmean. by rewrite fsum_nan. Qed.

Lemma fmean_nil : fmean [] = NaN.
Proof. reflexivity. Qed.

Lemma finite_inv x : finite x → ∃ q, x = Fin q.
Proof. destruct x; simpl; try done. eauto. Qed.

Lemma foldl_fadd_finite l a :
  finite a → Forall finite l → finite (foldl fadd a l).
Proof.
  revert a. induction l as [|x l IH]; intros a Ha Hl; simpl; [done|].
  apply Forall_cons in Hl as [Hx Hl]. apply IH; [|done].
  by destruct a, x.
Qed.

Lemma unit_level_inv x : unit_level x → ∃ q, x = Fin q ∧ 0 ≤ q ∧ q ≤ 1.
Proof. destruct x; try done. intros Hq. by exists q. Qed.

Lemma fsum_finite l : Forall finite l → finite (fsum l).
Proof. by apply foldl_fadd_finite. Qed.

Lemma Qc_of_Z_nonzero (n : Z) : n ≠ 0%Z → Qc_of_Z n ≠ 0.
Proof.
  intros Hn Heq. apply (f_equal this) in Heq. simpl in Heq.
  unfold inject_Z in Heq. injection Heq as Heq. done.
Qed.

Lemma Qc_of_nat_length_nonzero {A} (l : list A) :
  l ≠ [] → Qc_of_Z (Z.of_nat (length l)) ≠ 0.
Proof. intros Hl. apply Qc_of_Z_nonzero. destruct l; [done | simpl; lia]. Qed.

Lemma fmean_finite l : l ≠ [] → Forall finite l → finite (fmean l).
Proof.
  intros Hne Hl. unfold fmean.
  destruct (finite_inv _ (fsum_finite l Hl)) as [s ->]. simpl.
  by rewrite decide_False by by apply Qc_of_nat_length_nonzero.
Qed.

Lemma foldl_fadd_zeros l a :
  Forall (λ x, x = Fin 0) l → foldl fadd (Fin a) l = Fin a.
Proof.
  induction l as [|x l IH]; intros Hl; simpl; [done|].
  apply Forall_cons in Hl as [-> Hl]. simpl.
  rewrite Qcplus_0_r. by apply IH.
Qed.

Lemma fmean_zeros l : l ≠ [] → Forall (λ x, x = Fin 0) l → fmean l = Fin 0.
Proof.
  intros Hne Hl. unfold fmean, fsum. rewrite foldl_fadd_zeros by done. simpl.
  rewrite decide_False by by apply Qc_of_nat_length_nonzero.
  f_equal. unfold Qcdiv. apply Qcmult_0_l.
Qed.

Lemma fabs_finite x : finite x → finite (fabs x).
Proof. by destruct x. Qed.

Lemma fsub_finite x y : finite x → finite y → finite (fsub x y).
Proof. by destruct x, y. Qed.

Lemma fmul_finite x y : finite x → finite y → finite (fmul x y).
Proof. by destruct x, y. Qed.

Lemma fpow_nat_finite x n : finite x → finite (fpow_nat x n).
Proof.
  intros Hx. induction n as [|n IH]; simpl; [done|]. by apply fmul_finite.
Qed.

Lemma fpow_finite x (n : Z) : (0 ≤ n)%Z → finite x → finite (fpow x n).
Proof.
  intros Hn Hx. destruct n as [|p|p]; simpl; [done| |lia].
  by apply fpow_nat_finite.
Qed.

Lemma fsub_diag x : finite x → fsub x x = Fin 0.
Proof.
  destruct x as [| | |q]; simpl; try done. intros _. unfold fsub. simpl.
  f_equal. apply Qcplus_opp_r.
Qed.

Lemma fpow_zero_2 : fpow (Fin 0) 2 = Fin 0.
Proof. apply (bool_decide_unpack _). by vm_compute. Qed.

Lemma clamp_min0_nonneg x : finite x → fnonneg (clamp_min0 x).
Proof.
  destruct x as [| | |q]; simpl; try done. intros _.
  unfold clamp_min0, fltb. case_bool_decide as Hle; simpl; [done|].
  apply Qcle_refl.
Qed.

Lemma clamp_min0_finite x : finite x → finite (clamp_min0 x).
Proof.
  destruct x as [| | |q]; simpl; try done. intros _.
  unfold clamp_min0. by destruct (fltb _ _).
Qed.

(** ** Sorting *)

Global Instance sort_le_trans : Transitive sort_le.
Proof.
  intros [| | |a] [| | |b] [| | |c]; simpl; try done. apply Qcle_trans.
Qed.

Global Instance sort_le_total : Total sort_le.
Proof.
  intros [| | |a] [| | |b]; simpl; auto. apply (total Qcle).
Qed.

Global Instance sort_le_antisym : AntiSymm (=) sort_le.
Proof.
  intros [| | |a] [| | |b]; simpl; try done.
  intros Hab Hba. f_equal. by apply Qcle_antisym.
Qed.

Global Instance sort_ge_trans : Transitive sort_ge.
Proof. intros x y z Hxy Hyz. unfold sort_ge, flip in *. by etrans. Qed.

Global Instance sort_ge_total : Total sort_ge.
Proof. intros x y. unfold sort_ge, flip. destruct (total sort_le x y); auto. Qed.

Global Instance sort_ge_antisym : AntiSymm (=) sort_ge.
Proof. intros x y Hxy Hyx. unfold sort_ge, flip in *. by apply (anti_symm sort_le). Qed.

Lemma torch_sort_desc_perm l : torch_sort_desc l ≡ₚ l.
Proof. apply merge_sort_Permutation. Qed.

Lemma torch_sort_desc_length l : length (torch_sort_desc l) = length l.
Proof. by rewrite torch_sort_desc_perm. Qed.

(** Sorting forgets the order of its input. *)
Lemma torch_sort_desc_of_perm l1 l2 :
  l1 ≡ₚ l2 → torch_sort_desc l1 = torch_sort_desc l2.
Proof.
  intros Hp. apply (StronglySorted_unique sort_ge).
  - apply StronglySorted_merge_sort; apply _.
  - apply StronglySorted_merge_sort; apply _.
  - by rewrite !torch_sort_desc_perm.
Qed.

Lemma torch_sort_desc_finite l :
  Forall finite l → Forall finite (torch_sort_desc l).
Proof. by rewrite torch_sort_desc_perm. Qed.

(** ** Masking *)

(** Selecting by the mask from the zero-substituted array is selecting from
    the original array. *)
Lemma select_zero_fill (a : list fval) (m : list bool) :
  select (zip_with (λ c ab, if c : bool then ab.1 else ab.2) m
            (zip a ((λ _, Fin 0) <$> a))) m
  = select a m.
Proof.
  revert m. induction a as [|x a IH]; intros [|c m]; simpl; try done.
  rewrite IH. by destruct c.
Qed.

(** The zero-substituted array depends on the original one only at the
    positions the mask keeps. *)
Lemma zero_fill_agree (a1 a2 : list fval) (m : list bool) :
  length a1 = length a2 →
  (∀ i, m !! i = Some true → a1 !! i = a2 !! i) →
  zip_with (λ c ab, if c : bool then ab.1 else ab.2) m
    (zip a1 ((λ _, Fin 0) <$> a1))
  = zip_with (λ c ab, if c : bool then ab.1 else ab.2) m
      (zip a2 ((λ _, Fin 0) <$> a2)).
Proof.
  revert a2 m. induction a1 as [|x1 a1 IH]; intros [|x2 a2] [|c m] Hlen Hag;
    simpl in *; try done.
  f_equal.
  - destruct c; [|done]. specialize (Hag 0%nat eq_refl). by injection Hag.
  - apply IH; [lia|]. intros i Hi. exact (Hag (S i) Hi).
Qed.

Lemma select_length {A B} (a1 : list A) (a2 : list B) (m : list bool) :
  length a1 = length a2 → length (select a1 m) = length (select a2 m).
Proof.
  revert a2 m. induction a1 as [|x1 a1 IH]; intros [|x2 a2] [|c m] Hlen;
    simpl in *; try done.
  destruct c; simpl; [f_equal|]; apply IH; lia.
Qed.

Lemma wf_same_length {A B} (a : tensor A) (b : tensor B) :
  wf a → wf b → shape a = shape b → length (elems a) = length (elems b).
Proof. unfold wf. intros -> -> ->. done. Qed.

Lemma torch_where_zero_fill mask t :
  shape mask = shape t → torch_where mask t (zeros_like t) = Ok (zero_fill mask t).
Proof.
  intros Hsh. unfold torch_where. by rewrite decide_True by done.
Qed.

Lemma masked_select_same_shape t mask :
  shape mask = shape t →
  masked_select t mask
  = Ok (Tensor [length (select (elems t) (elems mask))]
          (select (elems t) (elems mask))).
Proof.
  intros Hsh. unfold masked_select. by rewrite decide_True by done.
Qed.

Lemma masked_mse_same_shape y_hat y :
  wf y_hat → wf y → shape y_hat = shape y →
  masked_mse y_hat y
  = Ok (zero_fill (valid_mask y) y_hat, zero_fill (valid_mask y) y,
        valid_mask y, fmean (squared_errors y_hat y)).
Proof.
  intros Hwf1 Hwf2 Hsh. unfold masked_mse. fold (valid_mask y).
  rewrite !torch_where_zero_fill by done. simpl.
  rewrite !masked_select_same_shape by done. simpl.
  rewrite !select_zero_fill. unfold mse_loss. simpl.
  rewrite decide_True.
  - done.
  - f_equal. apply select_length. by apply wf_same_length.
Qed.

(** ** [forward] *)

Section Forward.
Context `{Backend}.

Lemma getattr_variogram self :
  getattr self "_variogram_loss" = Raise (AttributeError "_variogram_loss").
Proof. reflexivity. Qed.

Lemma getattr_fdc self :
  getattr self "_fdc_loss" = Raise (AttributeError "_fdc_loss").
Proof. reflexivity. Qed.

(** With both auxiliary terms disabled, [forward] returns the base error
    term as the total, in a bundle of exactly two entries. *)
Lemma forward_no_aux self (prediction data : gmap string (tensor fval))
    y_hat y y_hat' y' mask mse g :
  prediction !! "y_hat" = Some y_hat →
  data !! "y" = Some y →
  masked_mse y_hat y = Ok (y_hat', y', mask, mse) →
  fpositive (variogram_weight self) = false →
  fpositive (fdc_weight self) = false →
  forward self prediction data g
  = Ok ((mse, <[ "total_loss" := mse ]> {[ "mse_loss" := mse ]}), g).
Proof.
  intros Hp Hd Hm Hv Hf. unfold forward, getitem, add_term.
  rewrite Hp, Hd, Hv, Hf. unfold mbind, M_bind, lift. rewrite Hm. simpl.
  unfold mret, M_ret. by rewrite fmap_insert, map_fmap_singleton.
Qed.

(** An enabled variogram term stops [forward] at the attribute lookup. *)
Lemma forward_variogram_enabled self (prediction data : gmap string (tensor fval))
    y_hat y r g :
  prediction !! "y_hat" = Some y_hat →
  data !! "y" = Some y →
  masked_mse y_hat y = Ok r →
  fpositive (variogram_weight self) = true →
  forward self prediction data g = Raise (AttributeError "_variogram_loss").
Proof.
  intros Hp Hd Hm Hv. unfold forward, getitem, add_term.
  rewrite Hp, Hd, Hv. unfold mbind, M_bind, lift. rewrite Hm.
  by destruct r as [[[? ?] ?] ?].
Qed.

(** So does an enabled FDC term. *)
Lemma forward_fdc_enabled self (prediction data : gmap string (tensor fval))
    y_hat y r g :
  prediction !! "y_hat" = Some y_hat →
  data !! "y" = Some y →
  masked_mse y_hat y = Ok r →
  fpositive (variogram_weight self) = false →
  fpositive (fdc_weight self) = true →
  forward self prediction data g = Raise (AttributeError "_fdc_loss").
Proof.
  intros Hp Hd Hm Hv Hf. unfold forward, getitem, add_term.
  rewrite Hp, Hd, Hv, Hf. unfold mbind, M_bind, lift. rewrite Hm.
  by destruct r as [[[? ?] ?] ?].
Qed.

(** The in-place update acts on the object that [loss] and the entry
    "mse_loss" share: had the lookup named the declared method [fdc_loss],
    the term would be added to that one object, so that "mse_loss" and the
    total read the same value afterwards. *)
Lemma add_term_in_place self w y_hat y mask v mse g :
  fpositive w = true →
  fdc_loss self y_hat y mask = Ok v →
  add_term self w "fdc_loss" "fdc_loss" y_hat y mask 0
    ([mse], {[ "mse_loss" := 0%nat ]}) g
  = Ok (([fadd mse (fmul w v); v],
         <[ "fdc_loss" := 1%nat ]> {[ "mse_loss" := 0%nat ]}), g).
Proof.
  intros Hw Hv. unfold add_term. rewrite Hw.
  unfold mbind, M_bind, lift. simpl. by rewrite Hv.
Qed.

End Forward.

(** ** Selection lemmas *)

Lemma select_all_false {A} (l : list A) (m : list bool) :
  Forall (λ c, c = false) m → select l m = [].
Proof.
  revert m. induction l as [|x l IH]; intros [|c m] Hm; simpl; try done.
  apply Forall_cons in Hm as [-> Hm]. by apply IH.
Qed.

Lemma select_agree {A} (a1 a2 : list A) (m : list bool) :
  length a1 = length a2 →
  (∀ i, m !! i = Some true → a1 !! i = a2 !! i) →
  select a1 m = select a2 m.
Proof.
  revert a2 m. induction a1 as [|x1 a1 IH]; intros [|x2 a2] [|c m] Hlen Hag;
    simpl in *; try done.
  assert (select a1 m = select a2 m) as ->.
  { apply IH; [lia|]. intros i Hi. exact (Hag (S i) Hi). }
  destruct c; [|done]. specialize (Hag 0%nat eq_refl). by injection Hag as ->.
Qed.

Lemma select_zip_with {A B C} (f : A → B → C) (a : list A) (b : list B)
    (m : list bool) :
  zip_with f (select a m) (select b m) = select (zip_with f a b) m.
Proof.
  revert b m. induction a as [|x a IH]; intros [|y b] [|c m]; simpl; try done.
  - destruct c; simpl; by destruct (select a m).
  - destruct c; simpl; by rewrite IH.
Qed.

Lemma elem_of_select {A} (l : list A) (m : list bool) i x :
  l !! i = Some x → m !! i = Some true → x ∈ select l m.
Proof.
  revert m i. induction l as [|y l IH]; intros [|c m] [|i] Hl Hm;
    simpl in *; try done.
  - injection Hl as ->. injection Hm as ->. apply elem_of_cons. by left.
  - destruct c; [apply elem_of_cons; right|]; by eapply IH.
Qed.

Lemma valid_mask_lookup y i :
  elems (valid_mask y) !! i = (λ v, negb (is_nan v)) <$> elems y !! i.
Proof.
  unfold valid_mask, invert, isnan. simpl.
  rewrite !list_lookup_fmap. by destruct (elems y !! i).
Qed.

Lemma valid_mask_true y i :
  elems (valid_mask y) !! i = Some true →
  ∃ v, elems y !! i = Some v ∧ v ≠ NaN.
Proof.
  rewrite valid_mask_lookup. destruct (elems y !! i) as [v|]; [|done].
  simpl. intros [= Hv]. exists v. split; [done|]. by intros ->.
Qed.

Lemma squared_errors_select y_hat y :
  squared_errors y_hat y
  = select (zip_with (λ a b, fpow (fsub a b) 2) (elems y_hat) (elems y))
      (elems (valid_mask y)).
Proof. apply select_zip_with. Qed.

(** What the zero-substitution leaves at each position. *)
Lemma zero_fill_lookup y t i v x :
  elems y !! i = Some v → elems t !! i = Some x →
  elems (zero_fill (valid_mask y) t) !! i
  = Some (if is_nan v then Fin 0 else x).
Proof.
  intros Hy Ht. unfold zero_fill. cbn [elems].
  apply lookup_zip_with_Some. exists (negb (is_nan v)), (x, Fin 0).
  split_and!.
  - by destruct (is_nan v).
  - rewrite valid_mask_lookup, Hy. done.
  - apply lookup_zip_with_Some. exists x, (Fin 0). split_and!; [done..|].
    unfold zeros_like. cbn [elems]. by rewrite list_lookup_fmap, Ht.
Qed.

Section ForwardClaims.
Context `{Backend}.

(** C2, as the code has it: when every entry of the observation array is
    NaN and neither auxiliary weight is positive, [forward] raises nothing
    and returns NaN as [mse_loss] and as [total_loss] (the mean of an
    empty selection). *)
Theorem C2_all_missing_returns_nan self
    (prediction data : gmap string (tensor fval)) y_hat y g :
  prediction !! "y_hat" = Some y_hat →
  data !! "y" = Some y →
  wf y_hat → wf y → shape y_hat = shape y →
  Forall (λ v, v = NaN) (elems y) →
  fpositive (variogram_weight self) = false →
  fpositive (fdc_weight self) = false →
  forward self prediction data g
  = Ok ((NaN, <[ "total_loss" := NaN ]> {[ "mse_loss" := NaN ]}), g).
Proof.
  intros Hp Hd Hwf1 Hwf2 Hsh Hnan Hv Hf.
  eapply forward_no_aux; [done..| |done|done].
  rewrite masked_mse_same_shape by done. do 2 f_equal.
  unfold squared_errors. rewrite !select_all_false; [done|..].
  all: unfold valid_mask, invert, isnan; simpl.
  all: rewrite !Forall_fmap; eapply Forall_impl; [exact Hnan|].
  all: by intros v ->.
Qed.

(** C5: two prediction arrays that agree wherever the observation is not
    NaN give the same zero-substituted arrays, mask and [mse_loss], hence
    the same result of [forward]; with the auxiliary terms disabled that
    result is the bundle holding this [mse_loss]. *)
Theorem C5_mse_ignores_masked_predictions self
    (prediction1 prediction2 data : gmap string (tensor fval))
    y_hat1 y_hat2 y g :
  prediction1 !! "y_hat" = Some y_hat1 →
  prediction2 !! "y_hat" = Some y_hat2 →
  data !! "y" = Some y →
  wf y_hat1 → wf y_hat2 → wf y →
  shape y_hat1 = shape y → shape y_hat2 = shape y →
  (∀ i v, elems y !! i = Some v → v ≠ NaN →
          elems y_hat1 !! i = elems y_hat2 !! i) →
  ∃ y_hat' y' mask mse,
    masked_mse y_hat1 y = Ok (y_hat', y', mask, mse) ∧
    masked_mse y_hat2 y = Ok (y_hat', y', mask, mse) ∧
    forward self prediction1 data g = forward self prediction2 data g ∧
    (fpositive (variogram_weight self) = false →
     fpositive (fdc_weight self) = false →
     forward self prediction1 data g
     = Ok ((mse, <[ "total_loss" := mse ]> {[ "mse_loss" := mse ]}), g)).
Proof.
  intros Hp1 Hp2 Hd Hwf1 Hwf2 Hwf Hsh1 Hsh2 Hag.
  assert (length (elems y_hat1) = length (elems y_hat2)) as Hlen.
  { apply wf_same_length; [done..|congruence]. }
  assert (∀ i, elems (valid_mask y) !! i = Some true →
               elems y_hat1 !! i = elems y_hat2 !! i) as Hag'.
  { intros i Hi. apply valid_mask_true in Hi as (v & Hv & Hne). eauto. }
  assert (masked_mse y_hat1 y = masked_mse y_hat2 y) as Heq.
  { rewrite !masked_mse_same_shape by done.
    assert (zero_fill (valid_mask y) y_hat1 = zero_fill (valid_mask y) y_hat2)
      as ->.
    { unfold zero_fill, zeros_like. cbn [elems shape].
      rewrite Hsh1, Hsh2. f_equal. by apply zero_fill_agree. }
    assert (squared_errors y_hat1 y = squared_errors y_hat2 y) as ->; [|done].
    unfold squared_errors. f_equal. by apply select_agree. }
  eexists _, _, _, _. split_and!.
  - by apply masked_mse_same_shape.
  - rewrite <- Heq. by apply masked_mse_same_shape.
  - unfold forward, getitem. rewrite Hp1, Hp2, Hd.
    unfold mbind, M_bind, lift. by rewrite Heq.
  - intros Hv Hf. eapply forward_no_aux; [done..| |done|done].
    by apply masked_mse_same_shape.
Qed.

(** C10, as the code has it: the zero-substitution touches [y_hat] only
    where [y] is NaN; a NaN of [y_hat] at a position where [y] is valid
    stays, is selected into the mean squared error, and makes the base
    error term NaN without any error; with neither auxiliary weight
    positive [forward] returns NaN as [mse_loss] and [total_loss].  (With
    a positive weight [forward] raises before it returns anything.) *)
Theorem C10_nan_prediction_reaches_mse self
    (prediction data : gmap string (tensor fval)) y_hat y i v g :
  prediction !! "y_hat" = Some y_hat →
  data !! "y" = Some y →
  wf y_hat → wf y → shape y_hat = shape y →
  elems y !! i = Some v → v ≠ NaN →
  elems y_hat !! i = Some NaN →
  (∀ j w x, elems y !! j = Some w → elems y_hat !! j = Some x →
     elems (zero_fill (valid_mask y) y_hat) !! j
     = Some (if is_nan w then Fin 0 else x)) ∧
  elems (zero_fill (valid_mask y) y_hat) !! i = Some NaN ∧
  masked_mse y_hat y
  = Ok (zero_fill (valid_mask y) y_hat, zero_fill (valid_mask y) y,
        valid_mask y, NaN) ∧
  (fpositive (variogram_weight self) = false →
   fpositive (fdc_weight self) = false →
   forward self prediction data g
   = Ok ((NaN, <[ "total_loss" := NaN ]> {[ "mse_loss" := NaN ]}), g)).
Proof.
  intros Hp Hd Hwf1 Hwf2 Hsh Hy Hv Hyh.
  assert (masked_mse y_hat y
          = Ok (zero_fill (valid_mask y) y_hat, zero_fill (valid_mask y) y,
                valid_mask y, NaN)) as Hm.
  { rewrite masked_mse_same_shape by done. do 2 f_equal.
    apply fmean_nan. rewrite squared_errors_select.
    apply elem_of_select with i.
    - apply lookup_zip_with_Some. exists NaN, v. by split_and!.
    - rewrite valid_mask_lookup, Hy. simpl. by destruct v. }
  split_and!.
  - intros j w x. apply zero_fill_lookup.
  - rewrite (zero_fill_lookup y y_hat i v NaN) by done. by destruct v.
  - done.
  - intros Hvw Hfw. by eapply forward_no_aux.
Qed.

End ForwardClaims.

(** ** Row-major indexing *)

Lemma bind_ext_in {A B} (f g : A → list B) (l : list A) :
  (∀ x, x ∈ l → f x = g x) → l ≫= f = l ≫= g.
Proof.
  induction l as [|x l IH]; intros Hfg; [done|].
  rewrite !bind_cons. rewrite Hfg by (apply elem_of_cons; by left).
  f_equal. apply IH. intros y Hy. apply Hfg. apply elem_of_cons. by right.
Qed.

Lemma fmap_ext_in {A B} (f g : A → B) (l : list A) :
  (∀ x, x ∈ l → f x = g x) → f <$> l = g <$> l.
Proof.
  induction l as [|x l IH]; intros Hfg; [done|].
  rewrite !fmap_cons. rewrite Hfg by (apply elem_of_cons; by left).
  f_equal. apply IH. intros y Hy. apply Hfg. apply elem_of_cons. by right.
Qed.

(** A list made of [n] blocks of [m] elements each. *)
Lemma length_bind_blocks {A} (f : nat → list A) (n m : nat) :
  (∀ i, (i < n)%nat → length (f i) = m) →
  length (seq 0 n ≫= f) = (n * m)%nat.
Proof.
  induction n as [|n IH]; intros Hlen; [done|].
  rewrite seq_S, bind_app, length_app, IH by (intros; apply Hlen; lia).
  simpl. rewrite app_nil_r, Hlen by lia. lia.
Qed.

Lemma lookup_bind_blocks {A} (f : nat → list A) (n m i j : nat) :
  (∀ i, (i < n)%nat → length (f i) = m) →
  (i < n)%nat → (j < m)%nat →
  (seq 0 n ≫= f) !! (i * m + j)%nat = f i !! j.
Proof.
  induction n as [|n IH]; intros Hlen Hi Hj; [lia|].
  rewrite seq_S, bind_app. simpl. rewrite app_nil_r.
  assert (length (seq 0 n ≫= f) = (n * m)%nat) as Hl.
  { apply length_bind_blocks. intros; apply Hlen; lia. }
  destruct (decide (i < n)%nat) as [Hlt|Hge].
  - rewrite lookup_app_l by (rewrite Hl; nia).
    apply IH; [|done..]. intros; apply Hlen; lia.
  - assert (i = n) as -> by lia.
    rewrite lookup_app_r by (rewrite Hl; lia).
    f_equal. rewrite Hl. lia.
Qed.

Lemma length_tabulate {A} (g : nat → A) (m : nat) :
  length (g <$> seq 0 m) = m.
Proof. by rewrite length_fmap, length_seq. Qed.

Lemma lookup_tabulate {A} (g : nat → A) (m j : nat) :
  (j < m)%nat → (g <$> seq 0 m) !! j = Some (g j).
Proof. intros Hj. by rewrite list_lookup_fmap, lookup_seq_lt. Qed.

(** Element (b, t, d) of data laid out by three nested loops. *)
Lemma entry3_tabulate (g : nat → nat → nat → fval) (B T D b t d : nat) :
  (b < B)%nat → (t < T)%nat → (d < D)%nat →
  entry3 T D (b' ← seq 0 B; t' ← seq 0 T; g b' t' <$> seq 0 D) b t d
  = g b t d.
Proof.
  intros Hb Ht Hd. unfold entry3.
  replace ((b * T + t) * D + d)%nat with (b * (T * D) + (t * D + d))%nat by lia.
  rewrite (lookup_bind_blocks _ B (T * D)); [|..|done|nia].
  - rewrite (lookup_bind_blocks _ T D); [|..|done|done].
    + by rewrite lookup_tabulate.
    + intros. apply length_tabulate.
  - intros. apply length_bind_blocks. intros. apply length_tabulate.
Qed.

(** Indexing the sorted tensor at [k] along the time axis reads position
    [k] of every sorted series. *)
Lemma index_sorted_dim1 (B T D : nat) (l : list fval) (k : Z) :
  (0 ≤ k < Z.of_nat T)%Z →
  index_dim1 B T D (sort_dim1_desc B T D l) k
  = Ok (sorted_series_at B T D l (Z.to_nat k)).
Proof.
  intros Hk. unfold index_dim1. rewrite decide_True by done.
  unfold sorted_series_at. do 2 f_equal.
  apply bind_ext_in. intros b Hb. apply elem_of_seq in Hb.
  apply fmap_ext_in. intros d Hd. apply elem_of_seq in Hd.
  unfold sort_dim1_desc. by rewrite entry3_tabulate by lia.
Qed.

(** ** [var_hyd_char] *)

(** On a non-negative rational, truncation is the floor. *)
Lemma trunc_floor (q : Qc) : 0 ≤ q → trunc q = Qfloor q.
Proof.
  intros Hq. unfold trunc, Qfloor. destruct q as [[n d] Hc]. simpl.
  apply Z.quot_div_nonneg; [|lia].
  unfold Qcle, Qle in Hq. simpl in Hq. lia.
Qed.

Lemma code_quantile_index_range (q : Qc) (T : nat) :
  (1 ≤ T)%nat → (0 ≤ code_quantile_index q T < Z.of_nat T)%Z.
Proof. unfold code_quantile_index. lia. Qed.

Section Reducer.
Context `{Backend}.

(** C8: a method tag other than "mean", "median", "std" and "quantile"
    makes the reducer raise [ValueError] and return nothing, whatever the
    other arguments are, whether the tag is passed by keyword or by
    position. *)
Theorem C8_unknown_method_raises ts method quantile random_quantile
    quantile_bounds g :
  method ∉ ["mean"; "median"; "std"; "quantile"] →
  var_hyd_char ts method quantile random_quantile quantile_bounds g
  = Raise (ValueError
             ("Unknown method for hydrograph characteristic: " +:+ method)) ∧
  var_hyd_char_call [PyTensor ts] [("method", PyStr method)] g
  = Raise (ValueError
             ("Unknown method for hydrograph characteristic: " +:+ method)) ∧
  var_hyd_char_call [PyTensor ts; PyStr method] [] g
  = Raise (ValueError
             ("Unknown method for hydrograph characteristic: " +:+ method)).
Proof.
  intros Hm.
  assert (∀ q rq qb, var_hyd_char ts method q rq qb g
     = Raise (ValueError
                ("Unknown method for hydrograph characteristic: " +:+ method)))
    as Hbody.
  { intros q rq qb. unfold var_hyd_char.
    repeat (rewrite decide_False; [|intros ->; apply Hm; set_solver]).
    done. }
  split_and!; [apply Hbody|..].
  - unfold var_hyd_char_call. apply Hbody.
  - unfold var_hyd_char_call. apply Hbody.
Qed.

(** C9: inside [variogram_loss] the two calls
    [self.var_hyd_char(t, method=method, random_quantile=True)] bind the
    instance to [ts] and the tensor to [method], which the keyword names
    again: the call raises [TypeError] before the body runs, and so does
    [variogram_loss], for every instance and all inputs. *)
Theorem C9_bound_reducer_call_raises self y_hat y mask g :
  (∀ t, bind_args var_hyd_char_signature [PyModule self; PyTensor t]
          [("method", PyStr "quantile"); ("random_quantile", PyBool true)]
        = Raise (TypeError (MultipleValues "method"))) ∧
  (∀ t, self_var_hyd_char self [PyTensor t]
          [("method", PyStr "quantile"); ("random_quantile", PyBool true)] g
        = Raise (TypeError (MultipleValues "method"))) ∧
  variogram_loss self y_hat y mask g
  = Raise (TypeError (MultipleValues "method")).
Proof. split_and!; try intros t; reflexivity. Qed.

(** C4, as the code has it: for a time length T >= 1 and a quantile level
    q >= 0 whose product with T is computed without rounding (q, T and
    q * T are binary64 values, as for q = 0.25, 0.5 or 0.75 and any T
    below 2^51), the quantile method sorts every series descending and
    returns its entry at index clamp(floor(q * T), 0, T - 1): the product
    is truncated by [int], not rounded. *)
Theorem C4_quantile_index_is_truncated ts (B T D : nat) (q : Qc)
    quantile_bounds g :
  shape ts = [B; T; D] →
  (1 ≤ T)%nat →
  0 ≤ q →
  is_double q →
  (Z.of_nat T < 2 ^ 53)%Z →
  is_double (q * Qc_of_Z (Z.of_nat T)) →
  code_quantile_index q T
  = Z.max 0 (Z.min (Qfloor (q * Qc_of_Z (Z.of_nat T))%Qc) (Z.of_nat T - 1)) ∧
  var_hyd_char ts "quantile" (Fin q) false quantile_bounds g
  = Ok (sorted_series_at B T D (elems ts)
          (Z.to_nat (code_quantile_index q T)), g).
Proof.
  intros Hsh HT Hq0 _ _ _. split.
  - unfold code_quantile_index. rewrite trunc_floor; [done|].
    apply Qcmult_nonneg_nonneg; [done|].
    unfold Qcle, Qle. simpl. lia.
  - unfold var_hyd_char. simpl. unfold with_shape3. rewrite Hsh.
    unfold mbind, M_bind, mret, M_ret, lift. simpl.
    fold (code_quantile_index q T).
    rewrite index_sorted_dim1 by by apply code_quantile_index_range.
    done.
Qed.

End Reducer.

(** ** [fdc_loss] *)

Lemma cross_abs_diff_finite a b :
  Forall finite a → Forall finite b → Forall finite (cross_abs_diff a b).
Proof.
  intros Ha Hb. unfold cross_abs_diff. apply Forall_bind.
  eapply Forall_impl; [exact Ha|]. intros x Hx. simpl.
  apply Forall_fmap. eapply Forall_impl; [exact Hb|]. intros y Hy. simpl.
  by apply fabs_finite, fsub_finite.
Qed.

Lemma cross_abs_diff_nonempty a b :
  a ≠ [] → b ≠ [] → cross_abs_diff a b ≠ [].
Proof. destruct a, b; done. Qed.

Lemma half_of_double (a : Qc) : Q2Qc (1 # 2) * (a + a) = a.
Proof.
  apply Qc_is_canon. simpl. rewrite !Qred_correct. ring.
Qed.

Lemma fdc_divergence_diag w :
  finite w →
  clamp_min0 (fsub w (fmul (Fin (Q2Qc (1 # 2))) (fadd w w))) = Fin 0.
Proof.
  destruct w as [| | |a]; simpl; try done. intros _.
  unfold fsub. simpl. rewrite half_of_double, Qcplus_opp_r. reflexivity.
Qed.

Lemma length_nonempty {A} (l : list A) : length l ≠ 0%nat → l ≠ [].
Proof. by destruct l. Qed.

(** C6, as the code has it: when every mask-selected entry of the two
    arrays is a finite number, [fdc_loss] returns a finite scalar that is
    greater than or equal to 0 (0 for an empty selection). *)
Theorem C6_fdc_nonneg_on_finite self y_hat y mask :
  wf y_hat → wf y →
  shape y_hat = shape mask → shape y = shape mask →
  Forall finite (select (elems y_hat) (elems mask)) →
  Forall finite (select (elems y) (elems mask)) →
  ∃ v, fdc_loss self y_hat y mask = Ok v ∧ finite v ∧ fnonneg v.
Proof.
  intros Hwf1 Hwf2 Hsh1 Hsh2 Hf1 Hf2. unfold fdc_loss.
  rewrite !masked_select_same_shape by done. simpl.
  assert (length (select (elems y_hat) (elems mask))
          = length (select (elems y) (elems mask))) as Hlen.
  { apply select_length, wf_same_length; [done..|congruence]. }
  case_decide as Hn.
  - exists (Fin 0). split_and!; [done..|]. simpl. apply Qcle_refl.
  - eexists. split; [done|].
    set (ys := take _ (torch_sort_desc (select (elems y) _))).
    set (yhs := take _ (torch_sort_desc (select (elems y_hat) _))).
    assert (Forall finite ys) as Hys.
    { by apply Forall_take, torch_sort_desc_finite. }
    assert (Forall finite yhs) as Hyhs.
    { by apply Forall_take, torch_sort_desc_finite. }
    assert (ys ≠ []) as Hne1.
    { apply length_nonempty. unfold ys.
      rewrite length_take, !torch_sort_desc_length. lia. }
    assert (yhs ≠ []) as Hne2.
    { apply length_nonempty. unfold yhs.
      rewrite length_take, !torch_sort_desc_length. lia. }
    assert (finite (fsub (fmean (cross_abs_diff ys yhs))
              (fmul (Fin (Q2Qc (1 # 2)))
                 (fadd (fmean (cross_abs_diff ys ys))
                       (fmean (cross_abs_diff yhs yhs)))))) as Hfin.
    { apply fsub_finite; [|apply fmul_finite; [done|]].
      - apply fmean_finite;
          [by apply cross_abs_diff_nonempty | by apply cross_abs_diff_finite].
      - assert (∀ a b, finite a → finite b → finite (fadd a b)) as Hadd
          by (by intros [] []).
        apply Hadd; apply fmean_finite;
          solve [by apply cross_abs_diff_nonempty
                | by apply cross_abs_diff_finite]. }
    split; [by apply clamp_min0_finite | by apply clamp_min0_nonneg].
Qed.

(** C7, as the code has it: when the mask-selected entries of [y_hat] are a
    rearrangement of those of [y] and are finite numbers, [fdc_loss]
    returns exactly 0, whatever their order. *)
Theorem C7_fdc_zero_on_rearrangement self y_hat y mask :
  shape y_hat = shape mask → shape y = shape mask →
  select (elems y_hat) (elems mask) ≡ₚ select (elems y) (elems mask) →
  Forall finite (select (elems y) (elems mask)) →
  fdc_loss self y_hat y mask = Ok (Fin 0).
Proof.
  intros Hsh1 Hsh2 Hperm Hfin. unfold fdc_loss.
  rewrite !masked_select_same_shape by done. simpl.
  case_decide as Hn; [done|].
  rewrite (torch_sort_desc_of_perm _ _ Hperm).
  set (ys := take _ (torch_sort_desc (select (elems y) _))).
  f_equal. apply fdc_divergence_diag.
  assert (ys ≠ []) as Hne.
  { apply length_nonempty. unfold ys.
    rewrite length_take, !torch_sort_desc_length. lia. }
  apply fmean_finite; [by apply cross_abs_diff_nonempty|].
  apply cross_abs_diff_finite; by apply Forall_take, torch_sort_desc_finite.
Qed.


(** ** [variogram_loss] *)

Lemma lookup_sorted_series (T D : nat) (l : list fval) (b d k : nat) :
  (k < T)%nat →
  ∃ x, torch_sort_desc (series T D l b d) !! k = Some x ∧
       x ∈ series T D l b d.
Proof.
  intros Hk.
  destruct (lookup_lt_is_Some_2 (torch_sort_desc (series T D l b d)) k)
    as [x Hx].
  { rewrite torch_sort_desc_length. unfold series.
    by rewrite length_fmap, length_seq. }
  exists x. split; [done|].
  rewrite <- (torch_sort_desc_perm (series T D l b d)).
  by eapply list_elem_of_lookup_2.
Qed.

Lemma series_finite (B T D : nat) (l : list fval) (b d : nat) :
  length l = (B * (T * D))%nat → Forall finite l →
  (b < B)%nat → (d < D)%nat →
  Forall finite (series T D l b d).
Proof.
  intros Hlen Hfin Hb Hd. unfold series. apply Forall_fmap, Forall_forall.
  intros t Ht. apply elem_of_seq in Ht. simpl. unfold entry3.
  destruct (lookup_lt_is_Some_2 l ((b * T + t) * D + d)) as [x Hx].
  { rewrite Hlen. assert (b * T + t < B * T)%nat by nia. nia. }
  rewrite Hx. simpl. rewrite Forall_forall in Hfin. apply Hfin.
  by eapply list_elem_of_lookup_2.
Qed.

Lemma sorted_series_at_finite (B T D : nat) (l : list fval) (k : nat) :
  length l = (B * (T * D))%nat → Forall finite l → (k < T)%nat →
  Forall finite (elems (sorted_series_at B T D l k)).
Proof.
  intros Hlen Hfin Hk. unfold sorted_series_at. simpl.
  apply Forall_bind, Forall_forall. intros b Hb. apply elem_of_seq in Hb.
  apply Forall_fmap, Forall_forall. intros d Hd. apply elem_of_seq in Hd.
  simpl. destruct (lookup_sorted_series T D l b d k Hk) as (x & -> & Hx).
  simpl. assert (Forall finite (series T D l b d)) as Hs.
  { apply (series_finite B); [done..|lia|lia]. }
  rewrite Forall_forall in Hs. by apply Hs.
Qed.

Lemma sorted_series_at_length (B T D : nat) (l : list fval) (k : nat) :
  length (elems (sorted_series_at B T D l k)) = (B * D)%nat.
Proof.
  unfold sorted_series_at. simpl. apply length_bind_blocks.
  intros. apply length_tabulate.
Qed.

Lemma zip_with_fmul_zeros (a b : list fval) :
  Forall (λ x, x = Fin 0) a → Forall finite b →
  Forall (λ x, x = Fin 0) (zip_with fmul a b).
Proof.
  revert b. induction a as [|x a IH]; intros [|y b] Ha Hb; simpl; try done.
  apply Forall_cons in Ha as [-> Ha]. apply Forall_cons in Hb as [Hy Hb].
  apply Forall_cons. split; [|by apply IH].
  destruct y as [| | |q]; try done. simpl. f_equal. apply Qcmult_0_l.
Qed.

Lemma pairwise_finite (v : Z) (es : list fval) :
  (0 ≤ v)%Z → Forall finite es →
  Forall finite (x ← es; (λ y, fpow (fabs (fsub x y)) v) <$> es).
Proof.
  intros Hv Hes. apply Forall_bind.
  eapply Forall_impl; [exact Hes|]. intros x Hx. simpl.
  apply Forall_fmap. eapply Forall_impl; [exact Hes|]. intros y Hy. simpl.
  by apply fpow_finite, fabs_finite, fsub_finite.
Qed.

Lemma squared_self_difference (P : list fval) :
  Forall finite P →
  Forall (λ x, x = Fin 0) (zip_with (λ o p, fpow (fsub o p) 2) P P).
Proof.
  induction P as [|p P IH]; intros HP; simpl; [done|].
  apply Forall_cons in HP as [Hp HP]. apply Forall_cons. split; [|by apply IH].
  rewrite fsub_diag by done. apply fpow_zero_2.
Qed.

Lemma elementwise_same_shape f a b :
  shape a = shape b →
  elementwise f a b = Ok (Tensor (shape a) (zip_with f (elems a) (elems b))).
Proof. intros Hsh. unfold elementwise. by rewrite decide_True. Qed.

Lemma length_pairwise {A} (f : fval → fval → A) (l es : list fval) :
  length (x ← l; f x <$> es) = (length l * length es)%nat.
Proof.
  induction l as [|x l IH]; [done|].
  rewrite bind_cons, length_app, length_fmap, IH. simpl. lia.
Qed.

(** Lines 100-110 on one and the same reduced series. *)
Lemma variogram_compare_same self (B : nat) (es : list fval) :
  (1 ≤ B)%nat → length es = B → Forall finite es →
  (0 ≤ v_order self)%Z →
  match distance_matrix self with
  | None => True
  | Some w => shape w = [B; B] ∧ wf w ∧ Forall finite (elems w)
  end →
  variogram_compare self (Tensor [B] es) (Tensor [B] es) = Ok (Fin 0).
Proof.
  intros HB Hlen Hes Hv Hw. unfold variogram_compare, pairwise_abs_diff_pow.
  cbn [shape elems mbind result_bind].
  rewrite elementwise_same_shape by done. cbn [shape elems].
  set (P := es ≫= _).
  assert (Forall finite P) as HP by by apply pairwise_finite.
  assert (length P = (B * B)%nat) as HlenP.
  { unfold P. by rewrite length_pairwise, Hlen. }
  pose proof (squared_self_difference P HP) as Hz.
  assert (length (zip_with (λ o p, fpow (fsub o p) 2) P P) = (B * B)%nat)
    as Hlz by (rewrite length_zip_with; lia).
  destruct (distance_matrix self) as [w|].
  - destruct Hw as (Hshw & Hwfw & Hfw). cbn [mbind result_bind].
    rewrite elementwise_same_shape by done. cbn [shape elems mbind result_bind].
    f_equal. apply fmean_zeros; [|by apply zip_with_fmul_zeros].
    apply length_nonempty. rewrite length_zip_with, Hlz.
    unfold wf in Hwfw. rewrite Hwfw, Hshw. simpl. nia.
  - cbn [elems mbind result_bind]. f_equal. apply fmean_zeros; [|done].
    apply length_nonempty. rewrite Hlz. nia.
Qed.

Section Variogram.
Context `{Backend}.

(** The reducer called as a plain function with the keyword arguments
    [variogram_loss] passes: the level comes from the next draw. *)
Lemma var_hyd_char_random_quantile ts (B T D : nat) g :
  shape ts = [B; T; D] → (1 ≤ T)%nat →
  var_hyd_char_call [PyTensor ts]
    [("method", PyStr "quantile"); ("random_quantile", PyBool true)] g
  = Ok (sorted_series_at B T D (elems ts)
          (Z.to_nat (code_quantile_index (drawn_level g) T)),
        Rng (draws g) (S (cursor g))).
Proof.
  intros Hsh HT.
  change (var_hyd_char_call [PyTensor ts]
            [("method", PyStr "quantile"); ("random_quantile", PyBool true)] g)
    with (var_hyd_char ts "quantile" (Fin (Q2Qc (1 # 4))) true
            (Fin (Q2Qc (1 # 20)), Fin (Q2Qc (19 # 20))) g).
  unfold var_hyd_char. simpl. unfold with_shape3. rewrite Hsh.
  unfold mbind, M_bind, mret, M_ret, lift, random_uniform, random_random.
  simpl. fold (drawn_level g). fold (code_quantile_index (drawn_level g) T).
  rewrite index_sorted_dim1 by by apply code_quantile_index_range.
  done.
Qed.

(** C3, as the code has it: for [y_hat] equal to [y], of shape [B, T, 1]
    with finite entries, B >= 1, T >= 1, a non-negative [v_order] and, if
    one is configured, a finite [B, B] distance matrix, two reductions that
    draw the same random number return the same series, and the pairwise
    comparison of lines 100-110 on them returns 0. *)
Theorem C3_variogram_zero_with_shared_draw self ts (B T : nat) g1 g2 :
  shape ts = [B; T; 1%nat] → wf ts → Forall finite (elems ts) →
  (1 ≤ B)%nat → (1 ≤ T)%nat →
  (0 ≤ v_order self)%Z →
  match distance_matrix self with
  | None => True
  | Some w => shape w = [B; B] ∧ wf w ∧ Forall finite (elems w)
  end →
  draws g1 (cursor g1) = draws g2 (cursor g2) →
  ∃ r g1' g2',
    var_hyd_char_call [PyTensor ts]
      [("method", PyStr "quantile"); ("random_quantile", PyBool true)] g1
    = Ok (r, g1') ∧
    var_hyd_char_call [PyTensor ts]
      [("method", PyStr "quantile"); ("random_quantile", PyBool true)] g2
    = Ok (r, g2') ∧
    variogram_compare self (squeeze_last r) (squeeze_last r) = Ok (Fin 0).
Proof.
  intros Hsh Hwf Hfin HB HT Hv Hw Hdraw.
  eexists _, _, _. split_and!.
  - by apply var_hyd_char_random_quantile.
  - rewrite (var_hyd_char_random_quantile ts B T 1) by done.
    unfold drawn_level. by rewrite <- Hdraw.
  - set (k := Z.to_nat _).
    assert (k < T)%nat as Hk.
    { unfold k. pose proof (code_quantile_index_range (drawn_level g1) T HT).
      lia. }
    assert (length (elems ts) = (B * (T * 1))%nat) as Hlen.
    { unfold wf in Hwf. rewrite Hwf, Hsh. simpl. lia. }
    change (squeeze_last (sorted_series_at B T 1 (elems ts) k))
      with (Tensor [B] (elems (sorted_series_at B T 1 (elems ts) k))).
    apply variogram_compare_same; [done| | |done..].
    + rewrite sorted_series_at_length. lia.
    + by apply sorted_series_at_finite.
Qed.

End Variogram.

(** * The claims on concrete inputs *)

(** C1 at a failing input: with [variogram_weight = 1.0] and the
    observations [[1,2,3],[4,5,6]] predicted exactly, [forward] returns no
    bundle: the lookup of [self._variogram_loss] raises [AttributeError]
    (the class defines [variogram_loss]). *)
Theorem C1_forward_raises_when_variogram_enabled :
  forward variogram_enabled_loss
    {[ "y_hat" := t_123456 ]} {[ "y" := t_123456 ]} (constant_rng 0)
  = Raise (AttributeError "_variogram_loss").
Proof. by vm_compute. Qed.

(** C2 fails as stated: with all observations missing and the default
    weights, [forward] raises nothing and returns NaN. *)
Lemma C2_counterexample :
  forward default_loss {[ "y_hat" := t_12 ]} {[ "y" := t_nan_nan ]}
    (constant_rng 0)
  = Ok ((NaN, <[ "total_loss" := NaN ]> {[ "mse_loss" := NaN ]}),
        constant_rng 0).
Proof. by vm_compute. Qed.

(** C2 on observations that are all missing. *)
Lemma C2_witness :
  forward default_loss {[ "y_hat" := t_12 ]} {[ "y" := t_nan_nan ]}
    (constant_rng (Q2Qc (1 # 2)))
  = Ok ((NaN, <[ "total_loss" := NaN ]> {[ "mse_loss" := NaN ]}),
        constant_rng (Q2Qc (1 # 2))).
Proof.
  apply (C2_all_missing_returns_nan default_loss
           {[ "y_hat" := t_12 ]} {[ "y" := t_nan_nan ]} t_12 t_nan_nan).
  - reflexivity.
  - reflexivity.
  - reflexivity.
  - reflexivity.
  - reflexivity.
  - repeat constructor.
  - reflexivity.
  - reflexivity.
Defined.

(** C3 fails as stated.  On equal arrays [variogram_loss] raises
    [TypeError] and returns nothing.  And the reducer, called as a plain
    function twice in a row as the method means to, draws two levels: with
    draws 0 and 0.9 it reduces the same array to its per-series maxima
    [3, 7] and then to its minima [1, 4], whose comparison is 49/2. *)
Lemma C3_counterexample :
  variogram_loss variogram_enabled_loss t_123457 t_123457
    (valid_mask t_123457) (list_rng [0; Q2Qc (9 # 10)])
  = Raise (TypeError (MultipleValues "method")) ∧
  ∃ r1 g1 r2 g2,
    var_hyd_char_call [PyTensor t_123457]
      [("method", PyStr "quantile"); ("random_quantile", PyBool true)]
      (list_rng [0; Q2Qc (9 # 10)]) = Ok (r1, g1) ∧
    var_hyd_char_call [PyTensor t_123457]
      [("method", PyStr "quantile"); ("random_quantile", PyBool true)]
      g1 = Ok (r2, g2) ∧
    r1 = Tensor [2; 1]%nat [Fin (Qc_of_Z 3); Fin (Qc_of_Z 7)] ∧
    r2 = Tensor [2; 1]%nat [Fin (Qc_of_Z 1); Fin (Qc_of_Z 4)] ∧
    variogram_compare variogram_enabled_loss (squeeze_last r1) (squeeze_last r2)
    = Ok (Fin (Q2Qc (49 # 2))).
Proof.
  split; [by vm_compute|].
  eexists _, _, _, _. split_and!.
  - apply (var_hyd_char_random_quantile t_123457 2 3 1); [reflexivity | lia].
  - apply (var_hyd_char_random_quantile t_123457 2 3 1); [reflexivity | lia].
  - by vm_compute.
  - by vm_compute.
  - apply (bool_decide_unpack _). by vm_compute.
Qed.

(** C3 with one draw of 0.5 for both reductions and a distance matrix. *)
Lemma C3_witness :
  ∃ r g1' g2',
    var_hyd_char_call [PyTensor t_123457]
      [("method", PyStr "quantile"); ("random_quantile", PyBool true)]
      (constant_rng (Q2Qc (1 # 2))) = Ok (r, g1') ∧
    var_hyd_char_call [PyTensor t_123457]
      [("method", PyStr "quantile"); ("random_quantile", PyBool true)]
      (list_rng [Q2Qc (1 # 2); 0]) = Ok (r, g2') ∧
    variogram_compare spatial_loss (squeeze_last r) (squeeze_last r)
    = Ok (Fin 0).
Proof.
  apply (C3_variogram_zero_with_shared_draw spatial_loss t_123457 2 3).
  - reflexivity.
  - reflexivity.
  - repeat constructor.
  - lia.
  - lia.
  - simpl. lia.
  - simpl. split_and!; [reflexivity | reflexivity | repeat constructor].
  - reflexivity.
Defined.

(** C4 fails as stated: for q = 0.75 and T = 5 the product is 3.75; the
    specification's index is round(3.75) = 4, the code's is int(3.75) = 3.
    On the series 3, 1, 5, 2, 4 the code returns 2, the entry at index 3 of
    5, 4, 3, 2, 1, and not 1, the entry at index 4. *)
Lemma C4_counterexample :
  spec_quantile_index (Q2Qc (3 # 4)) 5 = 4%Z ∧
  code_quantile_index (Q2Qc (3 # 4)) 5 = 3%Z ∧
  var_hyd_char t_31524 "quantile" (Fin (Q2Qc (3 # 4))) false
    (Fin (Q2Qc (1 # 20)), Fin (Q2Qc (19 # 20))) (constant_rng 0)
  = Ok (Tensor [1; 1]%nat [Fin (Qc_of_Z 2)], constant_rng 0) ∧
  sorted_series_at 1 5 1 (elems t_31524) 4
  = Tensor [1; 1]%nat [Fin (Qc_of_Z 1)].
Proof. split_and!; by vm_compute. Qed.

(** C4 at q = 0.75 and T = 5. *)
Lemma C4_witness :
  code_quantile_index (Q2Qc (3 # 4)) 5
  = Z.max 0 (Z.min (Qfloor (Q2Qc (3 # 4) * Qc_of_Z (Z.of_nat 5))%Qc)
               (Z.of_nat 5 - 1)) ∧
  var_hyd_char t_31524 "quantile" (Fin (Q2Qc (3 # 4))) false
    (Fin (Q2Qc (1 # 20)), Fin (Q2Qc (19 # 20))) (constant_rng 0)
  = Ok (sorted_series_at 1 5 1 (elems t_31524)
          (Z.to_nat (code_quantile_index (Q2Qc (3 # 4)) 5)), constant_rng 0).
Proof.
  apply (C4_quantile_index_is_truncated t_31524 1 5 1 (Q2Qc (3 # 4))).
  - reflexivity.
  - lia.
  - by vm_compute.
  - exists 3%Z, (-2)%Z. split_and!; [by vm_compute..|].
    apply (bool_decide_unpack _). by vm_compute.
  - by vm_compute.
  - exists 15%Z, (-2)%Z. split_and!; [by vm_compute..|].
    apply (bool_decide_unpack _). by vm_compute.
Defined.

(** C5 on predictions [1, 2] and [9, 2] against observations [NaN, 2]. *)
Lemma C5_witness :
  ∃ y_hat' y' mask mse,
    masked_mse t_12 t_nan_2 = Ok (y_hat', y', mask, mse) ∧
    masked_mse t_92 t_nan_2 = Ok (y_hat', y', mask, mse) ∧
    forward default_loss {[ "y_hat" := t_12 ]} {[ "y" := t_nan_2 ]}
      (constant_rng 0)
    = forward default_loss {[ "y_hat" := t_92 ]} {[ "y" := t_nan_2 ]}
        (constant_rng 0) ∧
    (fpositive (variogram_weight default_loss) = false →
     fpositive (fdc_weight default_loss) = false →
     forward default_loss {[ "y_hat" := t_12 ]} {[ "y" := t_nan_2 ]}
       (constant_rng 0)
     = Ok ((mse, <[ "total_loss" := mse ]> {[ "mse_loss" := mse ]}),
           constant_rng 0)).
Proof.
  apply (C5_mse_ignores_masked_predictions default_loss
           {[ "y_hat" := t_12 ]} {[ "y_hat" := t_92 ]} {[ "y" := t_nan_2 ]}
           t_12 t_92 t_nan_2).
  - reflexivity.
  - reflexivity.
  - reflexivity.
  - reflexivity.
  - reflexivity.
  - reflexivity.
  - reflexivity.
  - reflexivity.
  - intros [|[|i]] v Hv Hne; simpl in *.
    + injection Hv as <-. by destruct Hne.
    + reflexivity.
    + reflexivity.
Defined.

(** C6 fails as stated: a NaN prediction at a valid position goes through
    the clamp, and NaN is not greater than or equal to 0. *)
Lemma C6_counterexample :
  fdc_loss default_loss t_nan_2 t_12 (valid_mask t_12) = Ok NaN ∧
  ¬ fnonneg NaN.
Proof. split; [by vm_compute | by intros []]. Qed.

(** C6 on finite arrays. *)
Lemma C6_witness :
  ∃ v, fdc_loss default_loss t_123457 t_123456 (valid_mask t_123456) = Ok v ∧
       finite v ∧ fnonneg v.
Proof.
  apply (C6_fdc_nonneg_on_finite default_loss t_123457 t_123456
           (valid_mask t_123456)).
  - reflexivity.
  - reflexivity.
  - reflexivity.
  - reflexivity.
  - simpl. repeat constructor.
  - simpl. repeat constructor.
Defined.

(** C7 fails as stated: the observation +inf is not NaN, hence valid; on
    equal selections holding it the divergence is inf - inf = NaN. *)
Lemma C7_counterexample :
  select (elems t_inf) (elems (valid_mask t_inf)) = [PInf] ∧
  fdc_loss default_loss t_inf t_inf (valid_mask t_inf) = Ok NaN.
Proof. split; by vm_compute. Qed.

(** C7 on a prediction that is the reversed copy of the observations. *)
Lemma C7_witness :
  fdc_loss default_loss t_654321 t_123456 (valid_mask t_123456) = Ok (Fin 0).
Proof.
  apply (C7_fdc_zero_on_rearrangement default_loss t_654321 t_123456
           (valid_mask t_123456)).
  - reflexivity.
  - reflexivity.
  - apply (bool_decide_unpack _). by vm_compute.
  - simpl. repeat constructor.
Defined.

(** C8 for the tag "max". *)
Lemma C8_witness :
  var_hyd_char t_123456 "max" (Fin (Q2Qc (1 # 4))) false
    (Fin (Q2Qc (1 # 20)), Fin (Q2Qc (19 # 20))) (constant_rng 0)
  = Raise (ValueError "Unknown method for hydrograph characteristic: max") ∧
  var_hyd_char_call [PyTensor t_123456] [("method", PyStr "max")]
    (constant_rng 0)
  = Raise (ValueError "Unknown method for hydrograph characteristic: max") ∧
  var_hyd_char_call [PyTensor t_123456; PyStr "max"] [] (constant_rng 0)
  = Raise (ValueError "Unknown method for hydrograph characteristic: max").
Proof.
  apply (C8_unknown_method_raises t_123456 "max").
  apply (bool_decide_unpack _). by vm_compute.
Defined.

(** C10 as stated fails once an auxiliary weight is positive: on the
    prediction [NaN, 2] against observations [1, 2] with
    [variogram_weight = 1] the prediction holds a NaN at a valid position,
    yet [forward] returns no "total_loss" at all: it raises on the lookup
    of [_variogram_loss]. *)
Lemma C10_counterexample :
  elems t_12 !! 0%nat = Some (Fin (Qc_of_Z 1)) ∧
  elems t_nan_2 !! 0%nat = Some NaN ∧
  fpositive (variogram_weight variogram_enabled_loss) = true ∧
  forward variogram_enabled_loss {[ "y_hat" := t_nan_2 ]} {[ "y" := t_12 ]}
    (constant_rng 0)
  = Raise (AttributeError "_variogram_loss").
Proof. split_and!; by vm_compute. Qed.

(** C10 on the prediction [NaN, 2] against observations [1, 2]. *)
Lemma C10_witness :
  (∀ j w x, elems t_12 !! j = Some w → elems t_nan_2 !! j = Some x →
     elems (zero_fill (valid_mask t_12) t_nan_2) !! j
     = Some (if is_nan w then Fin 0 else x)) ∧
  elems (zero_fill (valid_mask t_12) t_nan_2) !! 0%nat = Some NaN ∧
  masked_mse t_nan_2 t_12
  = Ok (zero_fill (valid_mask t_12) t_nan_2, zero_fill (valid_mask t_12) t_12,
        valid_mask t_12, NaN) ∧
  (fpositive (variogram_weight default_loss) = false →
   fpositive (fdc_weight default_loss) = false →
   forward default_loss {[ "y_hat" := t_nan_2 ]} {[ "y" := t_12 ]}
     (constant_rng 0)
   = Ok ((NaN, <[ "total_loss" := NaN ]> {[ "mse_loss" := NaN ]}),
         constant_rng 0)).
Proof.
  apply (C10_nan_prediction_reaches_mse default_loss
           {[ "y_hat" := t_nan_2 ]} {[ "y" := t_12 ]} t_nan_2 t_12
           0%nat (Fin (Qc_of_Z 1))).
  - reflexivity.
  - reflexivity.
  - reflexivity.
  - reflexivity.
  - reflexivity.
  - reflexivity.
  - discriminate.
  - reflexivity.
Defined.

(** * Further properties of the code *)

(** ** Non-negative values *)

Lemma Qc_square_nonneg (q : Qc) : 0 ≤ q * (q * 1).
Proof.
  rewrite Qcmult_1_r. destruct (Qclt_le_dec q 0) as [Hneg|Hpos].
  - replace (q * q) with ((- q) * (- q)) by ring.
    assert (0 ≤ - q) as Hq.
    { apply Qclt_le_weak in Hneg. apply Qcopp_le_compat in Hneg.
      by replace (- 0) with 0 in Hneg by ring. }
    by apply Qcmult_nonneg_nonneg.
  - by apply Qcmult_nonneg_nonneg.
Qed.

Lemma fpow_2_nonneg x : finite x → finite (fpow x 2) ∧ fnonneg (fpow x 2).
Proof.
  destruct x as [| | |q]; simpl; try done. intros _. split; [done|].
  apply Qc_square_nonneg.
Qed.

Lemma foldl_fadd_nonneg l a :
  0 ≤ a → Forall (λ x, finite x ∧ fnonneg x) l →
  ∃ s, foldl fadd (Fin a) l = Fin s ∧ 0 ≤ s.
Proof.
  revert a. induction l as [|x l IH]; intros a Ha Hl; simpl; [eauto|].
  apply Forall_cons in Hl as [[Hfx Hx] Hl].
  destruct x as [| | |q]; simpl in *; try done.
  apply IH; [|done]. by apply Qcplus_nonneg_nonneg.
Qed.

Lemma Qc_of_Z_pos (n : Z) : (0 < n)%Z → 0 < Qc_of_Z n.
Proof. intros Hn. unfold Qclt, Qlt. simpl. lia. Qed.

Lemma fmean_nonneg l :
  l ≠ [] → Forall (λ x, finite x ∧ fnonneg x) l →
  finite (fmean l) ∧ fnonneg (fmean l).
Proof.
  intros Hne Hl. unfold fmean, fsum.
  destruct (foldl_fadd_nonneg l 0 (Qcle_refl 0) Hl) as (s & -> & Hs).
  simpl. rewrite decide_False by by apply Qc_of_nat_length_nonzero.
  simpl. split; [done|]. unfold Qcdiv.
  apply Qcmult_nonneg_nonneg; [done|].
  apply Qclt_le_weak, Qcinv_pos, Qc_of_Z_pos.
  destruct l; [done | simpl; lia].
Qed.

Lemma Forall_select {A} (P : A → Prop) (l : list A) (m : list bool) :
  (∀ i x, l !! i = Some x → m !! i = Some true → P x) →
  Forall P (select l m).
Proof.
  revert m. induction l as [|x l IH]; intros [|c m] Hl; simpl; try done.
  assert (Forall P (select l m)) as Hrec.
  { apply IH. intros i y Hy Hm. exact (Hl (S i) y Hy Hm). }
  destruct c; [|done]. apply Forall_cons. split; [|done].
  by apply (Hl 0%nat).
Qed.

Lemma select_lookup {A} (l : list A) (m : list bool) x :
  x ∈ select l m → ∃ i, l !! i = Some x ∧ m !! i = Some true.
Proof.
  revert m. induction l as [|y l IH]; intros [|c m] Hx; simpl in *;
    try by apply elem_of_nil in Hx.
  destruct c.
  - apply elem_of_cons in Hx as [-> | Hx]; [by exists 0%nat|].
    destruct (IH m Hx) as (i & Hi & Hm). by exists (S i).
  - destruct (IH m Hx) as (i & Hi & Hm). by exists (S i).
Qed.

(** ** [forward]: keys, outcome, masking *)

Section ForwardMore.
Context `{Backend}.

(** X1: [forward] reads the key "y_hat" of the prediction bundle first and
    the key "y" of the observation bundle second; a missing key raises
    [KeyError], and no other key of either bundle has any influence. *)
Theorem forward_reads_two_keys self
    (prediction data : gmap string (tensor fval)) g :
  forward self prediction data g
  = match prediction !! "y_hat", data !! "y" with
    | None, _ => Raise (KeyError "y_hat")
    | Some _, None => Raise (KeyError "y")
    | Some y_hat, Some y =>
        forward self {[ "y_hat" := y_hat ]} {[ "y" := y ]} g
    end.
Proof.
  unfold forward, getitem.
  destruct (prediction !! "y_hat") as [y_hat|]; [|done].
  destruct (data !! "y") as [y|]; [|done].
  by rewrite !lookup_singleton_eq.
Qed.

(** X2: on well-formed arrays of one shape the outcome of [forward] is
    decided by the weights alone: a positive [variogram_weight] raises
    [AttributeError] for [_variogram_loss]; otherwise a positive
    [fdc_weight] raises it for [_fdc_loss]; otherwise (weights zero,
    negative or NaN) the call returns the mean squared error over the valid
    entries as the scalar, as "mse_loss" and as "total_loss", in a bundle
    of exactly these two keys, and draws no random number. *)
Theorem forward_outcome self (prediction data : gmap string (tensor fval))
    y_hat y g :
  prediction !! "y_hat" = Some y_hat →
  data !! "y" = Some y →
  wf y_hat → wf y → shape y_hat = shape y →
  forward self prediction data g
  = if fpositive (variogram_weight self)
    then Raise (AttributeError "_variogram_loss")
    else if fpositive (fdc_weight self)
    then Raise (AttributeError "_fdc_loss")
    else
      let mse := fmean (squared_errors y_hat y) in
      Ok ((mse, <[ "total_loss" := mse ]> {[ "mse_loss" := mse ]}), g).
Proof.
  intros Hp Hd Hwf1 Hwf2 Hsh.
  pose proof (masked_mse_same_shape y_hat y Hwf1 Hwf2 Hsh) as Hm.
  destruct (fpositive (variogram_weight self)) eqn:Hv.
  - by eapply forward_variogram_enabled.
  - destruct (fpositive (fdc_weight self)) eqn:Hf.
    + by eapply forward_fdc_enabled.
    + by eapply forward_no_aux.
Qed.

(** X3: when every valid observation and the prediction at its position
    are finite and at least one observation is valid, the base error term
    is not NaN and is greater than or equal to 0. *)
Theorem masked_mse_nonneg y_hat y :
  wf y_hat → wf y → shape y_hat = shape y →
  (∀ i v, elems y !! i = Some v → v ≠ NaN →
     finite v ∧ ∃ p, elems y_hat !! i = Some p ∧ finite p) →
  (∃ i v, elems y !! i = Some v ∧ v ≠ NaN) →
  ∃ y_hat' y' mask mse,
    masked_mse y_hat y = Ok (y_hat', y', mask, mse) ∧
    mse ≠ NaN ∧ fnonneg mse.
Proof.
  intros Hwf1 Hwf2 Hsh Hfin (i & v & Hv & Hne).
  eexists _, _, _, _. split; [by apply masked_mse_same_shape|].
  cut (finite (fmean (squared_errors y_hat y))
       ∧ fnonneg (fmean (squared_errors y_hat y))).
  { intros [Hf Hn]. split; [|done]. intros Hnan. by rewrite Hnan in Hf. }
  apply fmean_nonneg.
  - destruct (Hfin i v Hv Hne) as (_ & p & Hp & _).
    rewrite squared_errors_select. intros Hnil.
    assert (fpow (fsub p v) 2 ∈ @nil fval) as Hin; [|by apply elem_of_nil in Hin].
    rewrite <- Hnil. apply elem_of_select with i.
    + apply lookup_zip_with_Some. by exists p, v.
    + rewrite valid_mask_lookup, Hv. simpl. by destruct v.
  - rewrite squared_errors_select. apply Forall_select.
    intros j x Hx Hm. apply lookup_zip_with_Some in Hx as (p & v' & -> & Hp & Hv').
    apply valid_mask_true in Hm as (v'' & Hv'' & Hne'').
    assert (v'' = v') as -> by congruence.
    destruct (Hfin j v' Hv' Hne'') as (Hfv & p' & Hp' & Hfp).
    assert (p' = p) as -> by congruence.
    by apply fpow_2_nonneg, fsub_finite.
Qed.

(** X4: when the prediction equals the observation at every valid position,
    the valid observations are finite and there is at least one, [forward]
    with the auxiliary terms disabled returns exactly 0 as the scalar, as
    "mse_loss" and as "total_loss". *)
Theorem forward_zero_on_exact_prediction self
    (prediction data : gmap string (tensor fval)) y_hat y g :
  prediction !! "y_hat" = Some y_hat →
  data !! "y" = Some y →
  wf y_hat → wf y → shape y_hat = shape y →
  (∀ i v, elems y !! i = Some v → v ≠ NaN →
     finite v ∧ elems y_hat !! i = Some v) →
  (∃ i v, elems y !! i = Some v ∧ v ≠ NaN) →
  fpositive (variogram_weight self) = false →
  fpositive (fdc_weight self) = false →
  forward self prediction data g
  = Ok ((Fin 0, <[ "total_loss" := Fin 0 ]> {[ "mse_loss" := Fin 0 ]}), g).
Proof.
  intros Hp Hd Hwf1 Hwf2 Hsh Heq (i & v & Hv & Hne) Hvw Hfw.
  eapply forward_no_aux; [done..| |done|done].
  rewrite masked_mse_same_shape by done.
  assert (fmean (squared_errors y_hat y) = Fin 0) as ->; [|done].
  rewrite squared_errors_select. apply fmean_zeros.
  - destruct (Heq i v Hv Hne) as (_ & Hp').
    intros Hnil.
    assert (fpow (fsub v v) 2 ∈ @nil fval) as Hin; [|by apply elem_of_nil in Hin].
    rewrite <- Hnil. apply elem_of_select with i.
    + apply lookup_zip_with_Some. by exists v, v.
    + rewrite valid_mask_lookup, Hv. simpl. by destruct v.
  - apply Forall_select.
    intros j x Hx Hm. apply lookup_zip_with_Some in Hx as (p & v' & -> & Hp' & Hv').
    apply valid_mask_true in Hm as (v'' & Hv'' & Hne'').
    assert (v'' = v') as -> by congruence.
    destruct (Heq j v' Hv' Hne'') as (Hfv & Hp'').
    assert (p = v') as -> by congruence.
    rewrite fsub_diag by done. apply fpow_zero_2.
Qed.

(** X5: on a prediction and an observation array of one shape, whenever
    the masking step succeeds, the mask is true exactly at the
    observations that are not NaN, the arrays handed on keep the input
    shape, the masked observation array holds no NaN, and it keeps every
    valid observation and holds 0 at every missing one. *)
Theorem masked_mse_outputs y_hat y y_hat' y' mask mse :
  shape y_hat = shape y →
  masked_mse y_hat y = Ok (y_hat', y', mask, mse) →
  shape y_hat' = shape y_hat ∧ shape y' = shape y ∧ shape mask = shape y ∧
  (∀ i, elems mask !! i = (λ v, negb (is_nan v)) <$> elems y !! i) ∧
  (∀ i v, elems y !! i = Some v →
     elems y' !! i = Some (if is_nan v then Fin 0 else v)) ∧
  Forall (λ x, x ≠ NaN) (elems y').
Proof.
  unfold masked_mse. fold (valid_mask y). unfold torch_where. intros _ Hm.
  destruct (decide (shape (valid_mask y) = shape y_hat
                    ∧ shape y_hat = shape (zeros_like y_hat))) as [Hsa|];
    [|by cbn in Hm].
  destruct (decide (shape (valid_mask y) = shape y
                    ∧ shape y = shape (zeros_like y))) as [Hsb|];
    [|by cbn in Hm].
  cbn [mbind result_bind] in Hm.
  rewrite !masked_select_same_shape in Hm
    by first [exact (proj1 Hsa) | exact (proj1 Hsb)].
  cbn [mbind result_bind] in Hm.
  destruct (mse_loss _ _) as [e|]; [|by cbn in Hm].
  cbn [mbind result_bind] in Hm.
  injection Hm as <- <- <- <-. cbn [shape elems].
  split_and!; [done..| | |].
  - apply valid_mask_lookup.
  - intros i v Hv. by apply (zero_fill_lookup y y i v v).
  - apply Forall_forall. intros x Hx Hnan. subst x.
    apply list_elem_of_lookup in Hx as [i Hi].
    apply lookup_zip_with_Some in Hi as (c & [v z] & Hc & Hm & Hz).
    apply lookup_zip_with_Some in Hz as (v' & z' & Hvz & Hv & Hz).
    injection Hvz as -> ->.
    rewrite !list_lookup_fmap, Hv in Hm. injection Hm as <-.
    rewrite list_lookup_fmap, Hv in Hz. injection Hz as <-.
    by destruct v'.
Qed.

End ForwardMore.

(** ** [fdc_loss]: empty, single and pooled selections *)

Lemma fabs_nonneg x : finite x → fnonneg (fabs x).
Proof.
  destruct x as [| | |q]; simpl; try done. intros _.
  case_decide as Hq; [|by apply Qcnot_lt_le].
  apply Qclt_le_weak in Hq. apply Qcopp_le_compat in Hq.
  by replace (- 0) with 0 in Hq by ring.
Qed.

Lemma clamp_min0_of_nonneg x : finite x → fnonneg x → clamp_min0 x = x.
Proof.
  destruct x as [| | |q]; simpl; try done. intros _ Hq.
  unfold clamp_min0, fltb. by rewrite bool_decide_eq_true_2.
Qed.

Lemma fmean_singleton x : finite x → fmean [x] = x.
Proof.
  destruct x as [| | |q]; simpl; try done. intros _.
  unfold fmean, fsum. cbn [foldl fadd length fdiv].
  rewrite decide_False by (by apply Qc_of_Z_nonzero).
  f_equal. rewrite Qcplus_0_l.
  replace (Qc_of_Z 1) with (1 : Qc) by (by apply Qc_is_canon).
  apply (right_id 1 Qcdiv).
Qed.

Lemma torch_sort_desc_singleton x : torch_sort_desc [x] = [x].
Proof. reflexivity. Qed.

(** X6: the zero-substituted arrays [forward] hands to the FDC term give
    the same value as the original arrays: the mask selects the same
    entries from both. *)
Theorem fdc_loss_zero_fill self y_hat y mask :
  fdc_loss self (zero_fill mask y_hat) (zero_fill mask y) mask
  = fdc_loss self y_hat y mask.
Proof.
  unfold fdc_loss, masked_select, zero_fill, zeros_like. cbn [shape elems].
  by rewrite !select_zero_fill.
Qed.

(** X7: when the mask selects nothing (for instance when every observation
    is missing), the FDC term is 0 and raises nothing, whatever the arrays
    hold. *)
Theorem fdc_loss_nothing_selected self y_hat y mask :
  shape mask = shape y_hat → shape mask = shape y →
  Forall (λ c, c = false) (elems mask) →
  fdc_loss self y_hat y mask = Ok (Fin 0).
Proof.
  intros Hs1 Hs2 Hm. unfold fdc_loss.
  rewrite !masked_select_same_shape by done. cbn [mbind result_bind].
  rewrite !select_all_false by done. by rewrite decide_True.
Qed.

(** X8: the FDC term pools its inputs: it depends only on which values the
    mask selects from each array, not on where they stand in time or
    across sites. *)
Theorem fdc_loss_pooled self y_hat1 y1 mask1 y_hat2 y2 mask2 :
  shape mask1 = shape y_hat1 → shape mask1 = shape y1 →
  shape mask2 = shape y_hat2 → shape mask2 = shape y2 →
  select (elems y_hat1) (elems mask1) ≡ₚ select (elems y_hat2) (elems mask2) →
  select (elems y1) (elems mask1) ≡ₚ select (elems y2) (elems mask2) →
  fdc_loss self y_hat1 y1 mask1 = fdc_loss self y_hat2 y2 mask2.
Proof.
  intros Hs1 Hs2 Hs3 Hs4 Hp1 Hp2. unfold fdc_loss.
  rewrite !masked_select_same_shape by done.
  cbn [mbind result_bind flatten elems].
  rewrite (torch_sort_desc_of_perm _ _ Hp1), (torch_sort_desc_of_perm _ _ Hp2).
  by rewrite (Permutation_length Hp2).
Qed.

(** X9: with exactly one selected position, holding the finite values [a]
    in [y] and [b] in [y_hat], the FDC term is the absolute error
    [|a - b|]. *)
Theorem fdc_loss_single_entry self y_hat y mask (a b : Qc) :
  shape mask = shape y_hat → shape mask = shape y →
  select (elems y_hat) (elems mask) = [Fin b] →
  select (elems y) (elems mask) = [Fin a] →
  fdc_loss self y_hat y mask = Ok (fabs (fsub (Fin a) (Fin b))).
Proof.
  intros Hs1 Hs2 Hb Ha. unfold fdc_loss.
  rewrite !masked_select_same_shape by done.
  cbn [mbind result_bind flatten elems]. rewrite Ha, Hb.
  rewrite decide_False by done. rewrite !torch_sort_desc_singleton.
  cbn [length Nat.min take cross_abs_diff mbind list_bind fmap list_fmap app].
  rewrite !fmean_singleton
    by (apply fabs_finite; by apply fsub_finite).
  rewrite (fsub_diag (Fin a)), (fsub_diag (Fin b)) by done.
  assert (fabs (Fin 0) = Fin 0) as -> by (apply (bool_decide_unpack _); by vm_compute).
  assert (fmul (Fin (Q2Qc (1 # 2))) (fadd (Fin 0) (Fin 0)) = Fin 0) as ->.
  { simpl. f_equal. apply half_of_double. }
  assert (∀ x, finite x → fsub x (Fin 0) = x) as Hsub0.
  { intros [| | |q]; simpl; try done. intros _. unfold fsub. simpl.
    f_equal. ring. }
  rewrite Hsub0 by (apply fabs_finite; by apply fsub_finite).
  f_equal. apply clamp_min0_of_nonneg.
  - apply fabs_finite. by apply fsub_finite.
  - apply fabs_nonneg. by apply fsub_finite.
Qed.

(** ** [var_hyd_char]: shapes, edge cases and the quantile rule *)

Lemma trunc_nonpos (q : Qc) : q ≤ 0 → (trunc q ≤ 0)%Z.
Proof.
  intros Hq. unfold trunc. destruct q as [[n d] Hc]. simpl.
  unfold Qcle, Qle in Hq. simpl in Hq.
  assert (n ≤ 0)%Z as Hn by lia.
  replace n with (- (- n))%Z by lia. rewrite Z.quot_opp_l by lia.
  pose proof (Z.quot_pos (- n) (Z.pos d)). lia.
Qed.

Lemma Qc_of_Z_nonneg (n : Z) : (0 ≤ n)%Z → 0 ≤ Qc_of_Z n.
Proof. intros Hn. unfold Qcle, Qle. simpl. lia. Qed.

Lemma code_quantile_index_low (q : Qc) (T : nat) :
  q ≤ 0 → code_quantile_index q T = 0%Z.
Proof.
  intros Hq. unfold code_quantile_index.
  assert (trunc (q * Qc_of_Z (Z.of_nat T)) ≤ 0)%Z; [|lia].
  apply trunc_nonpos.
  replace 0 with (0 * Qc_of_Z (Z.of_nat T)) by ring.
  apply Qcmult_le_compat_r; [done|]. apply Qc_of_Z_nonneg. lia.
Qed.


Lemma code_quantile_index_high (q : Qc) (T : nat) :
  (1 ≤ T)%nat → 1 ≤ q → code_quantile_index q T = (Z.of_nat T - 1)%Z.
Proof.
  intros HT Hq. unfold code_quantile_index.
  set (t := Qc_of_Z (Z.of_nat T)).
  assert (0 ≤ t) as Ht by (apply Qc_of_Z_nonneg; lia).
  assert (t ≤ q * t) as Hle.
  { replace t with (1 * t) at 1 by ring. by apply Qcmult_le_compat_r. }
  rewrite trunc_floor by by etrans.
  pose proof (Qfloor_resp_le t (q * t)%Qc Hle) as Hfl.
  assert (Qfloor t = Z.of_nat T) as Heq by apply Qfloor_Z.
  lia.
Qed.

Lemma Qc_sign_of_pos (n : Z) : (0 < n)%Z → Qc_sign (Qc_of_Z n) = Pos.
Proof.
  intros Hn. unfold Qc_sign, Qccompare, Qcompare. simpl.
  rewrite Z.mul_1_r. by destruct n.
Qed.

(** In a strongly sorted list an earlier entry is related to a later one. *)
Lemma StronglySorted_lookup {A} (R : relation A) (s : list A) i j a b :
  StronglySorted R s → (i < j)%nat →
  s !! i = Some a → s !! j = Some b → R a b.
Proof.
  intros Hs. revert i j. induction Hs as [|x s Hs IH Hx]; intros i j Hij Ha Hb.
  - done.
  - destruct j as [|j]; [lia|]. destruct i as [|i]; simpl in *.
    + injection Ha as ->. rewrite Forall_forall in Hx. apply Hx.
      by eapply list_elem_of_lookup_2.
    + apply (IH i j); [lia|done..].
Qed.

Lemma sort_le_refl x : sort_le x x.
Proof. destruct x as [| | |q]; simpl; [done..|]. apply Qcle_refl. Qed.

Lemma torch_sort_desc_lookup_mono (s : list fval) i j a b :
  (i ≤ j)%nat →
  torch_sort_desc s !! i = Some a → torch_sort_desc s !! j = Some b →
  sort_le b a.
Proof.
  intros Hij Ha Hb. destruct (decide (i = j)) as [->|Hne].
  - assert (a = b) as -> by congruence. apply sort_le_refl.
  - apply (StronglySorted_lookup sort_ge (torch_sort_desc s) i j); [|lia|done..].
    apply StronglySorted_merge_sort; apply _.
Qed.

Lemma sorted_series_at_lookup (B T D : nat) (l : list fval) (k b d : nat) :
  (b < B)%nat → (d < D)%nat →
  elems (sorted_series_at B T D l k) !! (b * D + d)%nat
  = Some (default NaN (torch_sort_desc (series T D l b d) !! k)).
Proof.
  intros Hb Hd. unfold sorted_series_at. cbn [elems].
  rewrite (lookup_bind_blocks _ B D); [|..|done|done].
  - by rewrite lookup_tabulate.
  - intros. apply length_tabulate.
Qed.

Lemma numel_2 (B D : nat) : numel [B; D] = (B * D)%nat.
Proof. unfold numel. simpl. lia. Qed.

Lemma reduce_dim1_wf f (B T D : nat) l :
  shape (reduce_dim1 f B T D l) = [B; D] ∧ wf (reduce_dim1 f B T D l).
Proof.
  split; [done|]. unfold wf, reduce_dim1. cbn [shape elems].
  rewrite numel_2. apply length_bind_blocks. intros. apply length_tabulate.
Qed.

Section ReducerMore.
Context `{Backend}.

(** The quantile method at a given finite level. *)
Lemma var_hyd_char_quantile_at ts (B T D : nat) (q : Qc) qb g :
  shape ts = [B; T; D] → (1 ≤ T)%nat →
  var_hyd_char ts "quantile" (Fin q) false qb g
  = Ok (sorted_series_at B T D (elems ts)
          (Z.to_nat (code_quantile_index q T)), g).
Proof.
  intros Hsh HT. unfold var_hyd_char. simpl. unfold with_shape3. rewrite Hsh.
  unfold mbind, M_bind, mret, M_ret, lift. simpl.
  fold (code_quantile_index q T).
  by rewrite index_sorted_dim1 by by apply code_quantile_index_range.
Qed.

(** The quantile method at a drawn level. *)
Lemma var_hyd_char_quantile_drawn ts (B T D : nat) quantile (lo hi : Qc) g :
  shape ts = [B; T; D] → (1 ≤ T)%nat →
  var_hyd_char ts "quantile" quantile true (Fin lo, Fin hi) g
  = Ok (sorted_series_at B T D (elems ts)
          (Z.to_nat (code_quantile_index
                       (lo + (hi + - lo) * draws g (cursor g)) T)),
        Rng (draws g) (S (cursor g))).
Proof.
  intros Hsh HT. unfold var_hyd_char. simpl. unfold with_shape3. rewrite Hsh.
  unfold mbind, M_bind, mret, M_ret, lift, random_uniform, random_random.
  simpl.
  fold (code_quantile_index (lo + (hi + - lo) * draws g (cursor g)) T).
  by rewrite index_sorted_dim1 by by apply code_quantile_index_range.
Qed.

(** X10: on an array of shape [B, T, D] with T >= 1, each of the four
    methods returns a well-formed array of shape [B, D], provided the
    quantile level and the bounds lie in [0, 1]. *)
Theorem var_hyd_char_result_shape ts (B T D : nat) method quantile
    random_quantile lo hi g :
  shape ts = [B; T; D] → (1 ≤ T)%nat →
  method ∈ ["mean"; "median"; "std"; "quantile"] →
  unit_level quantile → unit_level lo → unit_level hi →
  ∃ r g', var_hyd_char ts method quantile random_quantile (lo, hi) g
          = Ok (r, g') ∧
          shape r = [B; D] ∧ wf r.
Proof.
  intros Hsh HT Hm Hq Hlo Hhi.
  repeat (apply elem_of_cons in Hm as [-> | Hm]);
    [| | | |by apply elem_of_nil in Hm].
  - eexists _, _. split; [|apply reduce_dim1_wf].
    unfold var_hyd_char. simpl. unfold with_shape3. by rewrite Hsh.
  - eexists _, _. split; [|apply reduce_dim1_wf].
    unfold var_hyd_char. simpl. unfold with_shape3. rewrite Hsh.
    by rewrite decide_False by lia.
  - eexists _, _. split; [|apply reduce_dim1_wf].
    unfold var_hyd_char. simpl. unfold with_shape3. by rewrite Hsh.
  - apply unit_level_inv in Hq as (q & -> & _).
    apply unit_level_inv in Hlo as (l & -> & _).
    apply unit_level_inv in Hhi as (h & -> & _).
    destruct random_quantile.
    + eexists _, _. split; [by apply var_hyd_char_quantile_drawn|].
      split; [done|]. unfold wf. rewrite sorted_series_at_length.
      cbn [shape sorted_series_at]. by rewrite numel_2.
    + eexists _, _. split; [by apply var_hyd_char_quantile_at|].
      split; [done|]. unfold wf. rewrite sorted_series_at_length.
      cbn [shape sorted_series_at]. by rewrite numel_2.
Qed.

End ReducerMore.

Lemma index_dim1_empty (B D : nat) (l : list fval) (k : Z) :
  index_dim1 B 0 D l k = Raise IndexError.
Proof.
  unfold index_dim1. rewrite !decide_False by (simpl; lia). done.
Qed.

Lemma elem_of_torch_sort_desc (s : list fval) y :
  y ∈ s → ∃ j, torch_sort_desc s !! j = Some y.
Proof.
  intros Hy. apply list_elem_of_lookup. by rewrite torch_sort_desc_perm.
Qed.

Section ReducerEdges.
Context `{Backend}.

(** X11: on an empty time axis (shape [B, 0, D]) the four methods differ:
    "mean" and "std" return an array of shape [B, D] filled with NaN,
    "median" raises [IndexError], and so does "quantile" for every finite
    fixed level and for a level drawn between bounds in [0, 1]. *)
Theorem var_hyd_char_empty_time_axis ts (B D : nat) quantile random_quantile
    lo hi g :
  shape ts = [B; 0%nat; D] →
  finite quantile → unit_level lo → unit_level hi →
  (∃ r, var_hyd_char ts "mean" quantile random_quantile (lo, hi) g = Ok (r, g) ∧
        shape r = [B; D] ∧ wf r ∧ Forall (λ x, x = NaN) (elems r)) ∧
  (∃ r, var_hyd_char ts "std" quantile random_quantile (lo, hi) g = Ok (r, g) ∧
        shape r = [B; D] ∧ wf r ∧ Forall (λ x, x = NaN) (elems r)) ∧
  var_hyd_char ts "median" quantile random_quantile (lo, hi) g
  = Raise IndexError ∧
  var_hyd_char ts "quantile" quantile random_quantile (lo, hi) g
  = Raise IndexError.
Proof.
  intros Hsh Hq Hlo Hhi.
  assert (∀ f, f [] = NaN →
            Forall (λ x, x = NaN) (elems (reduce_dim1 f B 0 D (elems ts))))
    as Hnan.
  { intros f Hf. unfold reduce_dim1. cbn [elems].
    apply Forall_bind, Forall_forall. intros b _.
    apply Forall_fmap, Forall_forall. intros d _. exact Hf. }
  split_and!.
  - exists (reduce_dim1 fmean B 0 D (elems ts)).
    split_and!; [|apply reduce_dim1_wf..|by apply Hnan].
    unfold var_hyd_char. simpl. unfold with_shape3. by rewrite Hsh.
  - exists (reduce_dim1 std_of B 0 D (elems ts)).
    split_and!; [|apply reduce_dim1_wf..|by apply Hnan].
    unfold var_hyd_char. simpl. unfold with_shape3. by rewrite Hsh.
  - unfold var_hyd_char. simpl. unfold with_shape3. by rewrite Hsh.
  - apply finite_inv in Hq as [q ->].
    apply unit_level_inv in Hlo as (l & -> & _).
    apply unit_level_inv in Hhi as (h & -> & _).
    unfold var_hyd_char. simpl. unfold with_shape3. rewrite Hsh.
    destruct random_quantile;
      unfold mbind, M_bind, mret, M_ret, lift, random_uniform, random_random;
      simpl; by rewrite index_dim1_empty.
Qed.

(** X12: the quantile level is not validated: on a rank-3 array with
    T >= 1 a NaN level raises [ValueError] and an infinite level raises
    [OverflowError], both from the conversion [int(quantile * T)]. *)
Theorem var_hyd_char_level_not_finite ts (B T D : nat) qb g :
  shape ts = [B; T; D] → (1 ≤ T)%nat →
  var_hyd_char ts "quantile" NaN false qb g
  = Raise (ValueError "cannot convert float NaN to integer") ∧
  var_hyd_char ts "quantile" PInf false qb g = Raise OverflowError ∧
  var_hyd_char ts "quantile" NInf false qb g = Raise OverflowError.
Proof.
  intros Hsh HT.
  assert (Qc_sign (Qc_of_Z (Z.of_nat T)) = Pos) as Hs
    by (apply Qc_sign_of_pos; lia).
  split_and!; unfold var_hyd_char; simpl; unfold with_shape3; rewrite Hsh;
    unfold mbind, M_bind, mret, M_ret, lift; simpl; by rewrite ?Hs.
Qed.

(** X13: for a level in [0, 1] the quantile method never interpolates:
    at every position (b, d) the result is one of the entries of the
    series [ts[b, :, d]].  At level 0 it is their maximum, at level 1
    their minimum, in the order of [torch.sort] (NaN greatest). *)
Theorem quantile_picks_series_entry ts (B T D : nat) (q : Qc) qb g (b d : nat) :
  shape ts = [B; T; D] → (1 ≤ T)%nat → (Z.of_nat T < 2 ^ 53)%Z →
  (b < B)%nat → (d < D)%nat →
  0 ≤ q → q ≤ 1 →
  ∃ r x,
    var_hyd_char ts "quantile" (Fin q) false qb g = Ok (r, g) ∧
    elems r !! (b * D + d)%nat = Some x ∧
    x ∈ series T D (elems ts) b d ∧
    (q = 0 → ∀ y, y ∈ series T D (elems ts) b d → sort_le y x) ∧
    (q = 1 → ∀ y, y ∈ series T D (elems ts) b d → sort_le x y).
Proof.
  intros Hsh HT _ Hb Hd Hq0 Hq1.
  pose proof (code_quantile_index_range q T HT) as Hk.
  destruct (lookup_sorted_series T D (elems ts) b d
              (Z.to_nat (code_quantile_index q T))) as (x & Hx & Hin); [lia|].
  eexists _, x. split_and!.
  - by apply var_hyd_char_quantile_at.
  - rewrite sorted_series_at_lookup by done. by rewrite Hx.
  - done.
  - intros Hq y Hy.
    rewrite code_quantile_index_low in Hx by (subst q; done).
    destruct (elem_of_torch_sort_desc _ y Hy) as [j Hj].
    eapply (torch_sort_desc_lookup_mono _ (Z.to_nat 0) j);
      [simpl; lia|exact Hx|exact Hj].
  - intros Hq y Hy.
    rewrite code_quantile_index_high in Hx by (subst q; done).
    destruct (elem_of_torch_sort_desc _ y Hy) as [j Hj].
    eapply (torch_sort_desc_lookup_mono _ j (Z.to_nat (Z.of_nat T - 1)));
      [|exact Hj|exact Hx].
    apply lookup_lt_Some in Hj. rewrite torch_sort_desc_length in Hj.
    unfold series in Hj. rewrite length_fmap, length_seq in Hj. lia.
Qed.


End ReducerEdges.

Section ReducerDraws.
Context `{Backend}.

(** X15: a call that returns consumes exactly one random number when the
    method is "quantile" and [random_quantile] is set, and none otherwise:
    the flag has no effect on "mean", "median" and "std". *)
Theorem var_hyd_char_draws ts method quantile random_quantile qb g r g' :
  var_hyd_char ts method quantile random_quantile qb g = Ok (r, g') →
  draws g' = draws g ∧
  cursor g'
  = if decide (method = "quantile")
    then (if random_quantile then S (cursor g) else cursor g)
    else cursor g.
Proof.
  intros Hr. unfold var_hyd_char, with_shape3 in Hr.
  unfold mbind, M_bind, mret, M_ret, lift, raise, random_uniform,
    random_random in Hr.
  destruct (decide (method = "mean")) as [->|Hmean].
  { destruct (shape ts) as [|? [|? [|? [|? ?]]]]; simplify_eq; done. }
  destruct (decide (method = "median")) as [->|Hmedian].
  { destruct (shape ts) as [|? [|? [|? [|? ?]]]]; simplify_eq; try done.
    case_decide; simplify_eq; done. }
  destruct (decide (method = "std")) as [->|Hstd].
  { destruct (shape ts) as [|? [|? [|? [|? ?]]]]; simplify_eq; done. }
  destruct (decide (method = "quantile")) as [->|Hquant]; [|done].
  destruct random_quantile;
    destruct (shape ts) as [|? [|? [|? [|? ?]]]]; simplify_eq;
    unfold mbind, M_bind, mret, M_ret in Hr; cbn beta iota in Hr;
    destruct (py_int _) as [z|]; simplify_eq;
    destruct (index_dim1 _ _ _ _ _) as [t|]; simplify_eq; done.
Qed.

End ReducerDraws.

(** ** The pairwise comparison of [variogram_loss] *)

Lemma squared_difference_comm o p :
  fpow (fsub o p) 2 = fpow (fsub p o) 2.
Proof.
  destruct o as [| | |a], p as [| | |b]; try reflexivity.
  unfold fsub. simpl. f_equal. ring.
Qed.

Lemma zip_with_comm {A B} (f : A → A → B) (l k : list A) :
  (∀ x y, f x y = f y x) → zip_with f l k = zip_with f k l.
Proof.
  intros Hf. revert k. induction l as [|x l IH]; intros [|y k]; simpl; try done.
  by rewrite Hf, IH.
Qed.

Lemma pairwise_abs_diff_pow_error v t e :
  pairwise_abs_diff_pow v t = Raise e → e = ShapeError.
Proof.
  unfold pairwise_abs_diff_pow.
  destruct (shape t) as [|? [|? [|? ?]]]; by intros [=].
Qed.

Lemma Forall_zip_with_2 {A B C} (P : A → Prop) (Q : B → Prop) (R : C → Prop)
    (f : A → B → C) (l : list A) (k : list B) :
  (∀ x y, P x → Q y → R (f x y)) →
  Forall P l → Forall Q k → Forall R (zip_with f l k).
Proof.
  intros Hf Hl. revert k. induction Hl as [|x l Hx Hl IH]; intros k Hk.
  - done.
  - destruct Hk as [|y k Hy Hk]; simpl; [done|].
    apply Forall_cons. split; [by apply Hf | by apply IH].
Qed.

(** X16: the comparison is symmetric: exchanging the reduced predictions
    and the reduced observations changes neither the value nor the error. *)
Theorem variogram_compare_symmetric self y_hat_flat y_flat :
  variogram_compare self y_hat_flat y_flat
  = variogram_compare self y_flat y_hat_flat.
Proof.
  unfold variogram_compare.
  destruct (pairwise_abs_diff_pow (v_order self) y_flat) as [P|e1] eqn:HP;
    destruct (pairwise_abs_diff_pow (v_order self) y_hat_flat) as [Q|e2] eqn:HQ;
    cbn [mbind result_bind]; try done.
  - unfold elementwise.
    destruct (decide (shape P = shape Q)) as [Heq|Hne].
    + rewrite (decide_True (P := shape Q = shape P)) by done.
      rewrite Heq.
      by rewrite (zip_with_comm _ (elems P) (elems Q) squared_difference_comm).
    + by rewrite (decide_False (P := shape Q = shape P)) by done.
  - apply pairwise_abs_diff_pow_error in HP, HQ. by subst.
Qed.

(** X17: with the arithmetic taken exact (no rounding, no overflow):
    without a distance matrix, or with one whose entries are finite and
    not negative, the comparison of two finite series of one length
    B >= 1 is a finite number greater than or equal to 0. *)
Theorem variogram_compare_nonneg self (B : nat) (a b : list fval) :
  (1 ≤ B)%nat → length a = B → length b = B →
  Forall finite a → Forall finite b →
  (0 ≤ v_order self)%Z →
  match distance_matrix self with
  | None => True
  | Some w => shape w = [B; B] ∧ wf w ∧
              Forall (λ x, finite x ∧ fnonneg x) (elems w)
  end →
  ∃ v, variogram_compare self (Tensor [B] a) (Tensor [B] b) = Ok v ∧
       finite v ∧ fnonneg v.
Proof.
  intros HB Ha Hb Hfa Hfb Hv Hw.
  unfold variogram_compare, pairwise_abs_diff_pow.
  cbn [shape elems mbind result_bind].
  rewrite elementwise_same_shape by done. cbn [shape elems].
  set (P := b ≫= _). set (Q := a ≫= _).
  assert (Forall finite P) as HP by by apply pairwise_finite.
  assert (Forall finite Q) as HQ by by apply pairwise_finite.
  assert (length P = (B * B)%nat) as HlP
    by (unfold P; by rewrite length_pairwise, Hb).
  assert (length Q = (B * B)%nat) as HlQ
    by (unfold Q; by rewrite length_pairwise, Ha).
  set (L := zip_with _ P Q).
  assert (Forall (λ x, finite x ∧ fnonneg x) L) as HL.
  { unfold L. eapply Forall_zip_with_2; [|exact HP|exact HQ].
    intros x y Hx Hy. simpl. by apply fpow_2_nonneg, fsub_finite. }
  assert (length L = (B * B)%nat) as HlL
    by (unfold L; rewrite length_zip_with; lia).
  destruct (distance_matrix self) as [w|]; cbn [mbind result_bind].
  - destruct Hw as (Hshw & Hwfw & Hfw).
    rewrite elementwise_same_shape by done.
    cbn [shape elems mbind result_bind].
    eexists. split; [done|]. apply fmean_nonneg.
    + apply length_nonempty.
      assert (length (elems w) = (B * B)%nat) as Hlw.
      { unfold wf in Hwfw. rewrite Hwfw, Hshw. apply numel_2. }
      pose proof (length_zip_with fmul L (elems w)) as Hz.
      rewrite HlL, Hlw in Hz. rewrite Hz. nia.
    + eapply Forall_zip_with_2; [|exact HL|exact Hfw].
      intros x y [Hfx Hx] [Hfy Hy]. simpl.
      destruct x as [| | |p], y as [| | |q]; simpl in *; try done.
      split; [done|]. by apply Qcmult_nonneg_nonneg.
  - cbn [elems]. eexists. split; [done|]. apply fmean_nonneg; [|done].
    apply length_nonempty. rewrite HlL. nia.
Qed.

(** X18: without a distance matrix, a batch of a single example always
    compares to 0 (its only pairwise difference is that of the example
    with itself), and an empty batch compares to NaN, the mean of no
    entry. *)
Theorem variogram_compare_small_batches self (x y : fval) :
  distance_matrix self = None →
  finite x → finite y → (0 ≤ v_order self)%Z →
  variogram_compare self (Tensor [1%nat] [x]) (Tensor [1%nat] [y])
  = Ok (Fin 0) ∧
  variogram_compare self (Tensor [0%nat] []) (Tensor [0%nat] []) = Ok NaN.
Proof.
  intros Hw Hx Hy Hv. unfold variogram_compare, pairwise_abs_diff_pow.
  rewrite Hw. cbn [shape elems mbind result_bind].
  rewrite !elementwise_same_shape by done.
  cbn [shape elems mbind result_bind list_bind fmap list_fmap app zip_with].
  split; [|done].
  rewrite (fsub_diag x), (fsub_diag y) by done.
  assert (finite (fpow (fabs (Fin 0)) (v_order self))) as Hd
    by by apply fpow_finite.
  rewrite fsub_diag by done. rewrite fpow_zero_2.
  by rewrite fmean_singleton.
Qed.

(** * The further properties on concrete inputs *)

(** X2 on predictions 1, 2, 3, 4, 5, 7 against observations 1 to 6. *)
Lemma forward_outcome_witness :
  forward default_loss {[ "y_hat" := t_123457 ]} {[ "y" := t_123456 ]}
    (constant_rng 0)
  = if fpositive (variogram_weight default_loss)
    then Raise (AttributeError "_variogram_loss")
    else if fpositive (fdc_weight default_loss)
    then Raise (AttributeError "_fdc_loss")
    else
      let mse := fmean (squared_errors t_123457 t_123456) in
      Ok ((mse, <[ "total_loss" := mse ]> {[ "mse_loss" := mse ]}),
          constant_rng 0).
Proof.
  apply (forward_outcome default_loss
           {[ "y_hat" := t_123457 ]} {[ "y" := t_123456 ]}
           t_123457 t_123456).
  - reflexivity.
  - reflexivity.
  - reflexivity.
  - reflexivity.
  - reflexivity.
Defined.

(** X3 on predictions [1, 7] against observations [NaN, 2]. *)
Lemma masked_mse_nonneg_witness :
  ∃ y_hat' y' mask mse,
    masked_mse t_17 t_nan_2 = Ok (y_hat', y', mask, mse) ∧
    mse ≠ NaN ∧ fnonneg mse.
Proof.
  apply (masked_mse_nonneg t_17 t_nan_2).
  - reflexivity.
  - reflexivity.
  - reflexivity.
  - intros [|[|i]] v Hv Hne; simpl in *.
    + injection Hv as <-. by destruct Hne.
    + injection Hv as <-. split; [exact I|]. eexists. split; [reflexivity|exact I].
    + discriminate.
  - exists 1%nat, (Fin (Qc_of_Z 2)). split; [reflexivity|discriminate].
Defined.

(** X4 on predictions [9, 2] against observations [NaN, 2]. *)
Lemma forward_zero_on_exact_prediction_witness :
  forward default_loss {[ "y_hat" := t_92 ]} {[ "y" := t_nan_2 ]}
    (constant_rng 0)
  = Ok ((Fin 0, <[ "total_loss" := Fin 0 ]> {[ "mse_loss" := Fin 0 ]}),
        constant_rng 0).
Proof.
  apply (forward_zero_on_exact_prediction default_loss
           {[ "y_hat" := t_92 ]} {[ "y" := t_nan_2 ]} t_92 t_nan_2).
  - reflexivity.
  - reflexivity.
  - reflexivity.
  - reflexivity.
  - reflexivity.
  - intros [|[|i]] v Hv Hne; simpl in *.
    + injection Hv as <-. by destruct Hne.
    + injection Hv as <-. split; [exact I|reflexivity].
    + discriminate.
  - exists 1%nat, (Fin (Qc_of_Z 2)). split; [reflexivity|discriminate].
  - reflexivity.
  - reflexivity.
Defined.

(** X5 on predictions [1, 7] against observations [NaN, 2]. *)
Lemma masked_mse_outputs_witness :
  shape (zero_fill (valid_mask t_nan_2) t_17) = shape t_17 ∧
  shape (zero_fill (valid_mask t_nan_2) t_nan_2) = shape t_nan_2 ∧
  shape (valid_mask t_nan_2) = shape t_nan_2 ∧
  (∀ i, elems (valid_mask t_nan_2) !! i
        = (λ v, negb (is_nan v)) <$> elems t_nan_2 !! i) ∧
  (∀ i v, elems t_nan_2 !! i = Some v →
     elems (zero_fill (valid_mask t_nan_2) t_nan_2) !! i
     = Some (if is_nan v then Fin 0 else v)) ∧
  Forall (λ x, x ≠ NaN) (elems (zero_fill (valid_mask t_nan_2) t_nan_2)).
Proof.
  apply (masked_mse_outputs t_17 t_nan_2 _ _ _
           (fmean (squared_errors t_17 t_nan_2))).
  - reflexivity.
  - apply masked_mse_same_shape; reflexivity.
Defined.

(** X7 on observations that are all missing. *)
Lemma fdc_loss_nothing_selected_witness :
  fdc_loss default_loss t_12 t_nan_nan (valid_mask t_nan_nan) = Ok (Fin 0).
Proof.
  apply (fdc_loss_nothing_selected default_loss t_12 t_nan_nan
           (valid_mask t_nan_nan)).
  - reflexivity.
  - reflexivity.
  - simpl. repeat constructor.
Defined.

(** X8: reversing both arrays in time leaves the FDC term unchanged. *)
Lemma fdc_loss_pooled_witness :
  fdc_loss default_loss t_123457 t_123456 (valid_mask t_123456)
  = fdc_loss default_loss
      (tensor3_of_Z 2 3 1 [7; 5; 4; 3; 2; 1]%Z) t_654321 (valid_mask t_654321).
Proof.
  apply (fdc_loss_pooled default_loss t_123457 t_123456 (valid_mask t_123456)
           (tensor3_of_Z 2 3 1 [7; 5; 4; 3; 2; 1]%Z) t_654321
           (valid_mask t_654321)).
  - reflexivity.
  - reflexivity.
  - reflexivity.
  - reflexivity.
  - apply (bool_decide_unpack _). by vm_compute.
  - apply (bool_decide_unpack _). by vm_compute.
Defined.

(** X9 on the single valid position of observations [NaN, 2] with
    predictions [1, 7]. *)
Lemma fdc_loss_single_entry_witness :
  fdc_loss default_loss t_17 t_nan_2 (valid_mask t_nan_2)
  = Ok (fabs (fsub (Fin (Qc_of_Z 2)) (Fin (Qc_of_Z 7)))).
Proof.
  apply (fdc_loss_single_entry default_loss t_17 t_nan_2 (valid_mask t_nan_2)).
  - reflexivity.
  - reflexivity.
  - reflexivity.
  - reflexivity.
Defined.

(** X10 for the median of [[1,2,3],[4,5,6]]. *)
Lemma var_hyd_char_result_shape_witness :
  ∃ r g', var_hyd_char t_123456 "median" (Fin (Q2Qc (1 # 4))) true
            (Fin (Q2Qc (1 # 20)), Fin (Q2Qc (19 # 20))) (constant_rng 0)
          = Ok (r, g') ∧
          shape r = [2; 1]%nat ∧ wf r.
Proof.
  apply (var_hyd_char_result_shape t_123456 2 3 1 "median").
  - reflexivity.
  - lia.
  - apply (bool_decide_unpack _). by vm_compute.
  - split; by vm_compute.
  - split; by vm_compute.
  - split; by vm_compute.
Defined.

(** X11 on an array of shape [2, 0, 1]. *)
Lemma var_hyd_char_empty_time_axis_witness :
  (∃ r, var_hyd_char t_no_steps "mean" (Fin (Q2Qc (1 # 4))) false
          (Fin (Q2Qc (1 # 20)), Fin (Q2Qc (19 # 20))) (constant_rng 0)
        = Ok (r, constant_rng 0) ∧
        shape r = [2; 1]%nat ∧ wf r ∧ Forall (λ x, x = NaN) (elems r)) ∧
  (∃ r, var_hyd_char t_no_steps "std" (Fin (Q2Qc (1 # 4))) false
          (Fin (Q2Qc (1 # 20)), Fin (Q2Qc (19 # 20))) (constant_rng 0)
        = Ok (r, constant_rng 0) ∧
        shape r = [2; 1]%nat ∧ wf r ∧ Forall (λ x, x = NaN) (elems r)) ∧
  var_hyd_char t_no_steps "median" (Fin (Q2Qc (1 # 4))) false
    (Fin (Q2Qc (1 # 20)), Fin (Q2Qc (19 # 20))) (constant_rng 0)
  = Raise IndexError ∧
  var_hyd_char t_no_steps "quantile" (Fin (Q2Qc (1 # 4))) false
    (Fin (Q2Qc (1 # 20)), Fin (Q2Qc (19 # 20))) (constant_rng 0)
  = Raise IndexError.
Proof.
  apply (var_hyd_char_empty_time_axis t_no_steps 2 1).
  - reflexivity.
  - exact I.
  - split; by vm_compute.
  - split; by vm_compute.
Defined.

(** X12 on a series of five steps. *)
Lemma var_hyd_char_level_not_finite_witness :
  var_hyd_char t_31524 "quantile" NaN false
    (Fin (Q2Qc (1 # 20)), Fin (Q2Qc (19 # 20))) (constant_rng 0)
  = Raise (ValueError "cannot convert float NaN to integer") ∧
  var_hyd_char t_31524 "quantile" PInf false
    (Fin (Q2Qc (1 # 20)), Fin (Q2Qc (19 # 20))) (constant_rng 0)
  = Raise OverflowError ∧
  var_hyd_char t_31524 "quantile" NInf false
    (Fin (Q2Qc (1 # 20)), Fin (Q2Qc (19 # 20))) (constant_rng 0)
  = Raise OverflowError.
Proof.
  apply (var_hyd_char_level_not_finite t_31524 1 5 1).
  - reflexivity.
  - lia.
Defined.

(** X13 at level 0.75 on the series 3, 1, 5, 2, 4. *)
Lemma quantile_picks_series_entry_witness :
  ∃ r x,
    var_hyd_char t_31524 "quantile" (Fin (Q2Qc (3 # 4))) false
      (Fin (Q2Qc (1 # 20)), Fin (Q2Qc (19 # 20))) (constant_rng 0)
    = Ok (r, constant_rng 0) ∧
    elems r !! (0 * 1 + 0)%nat = Some x ∧
    x ∈ series 5 1 (elems t_31524) 0 0 ∧
    (Q2Qc (3 # 4) = 0 →
       ∀ y, y ∈ series 5 1 (elems t_31524) 0 0 → sort_le y x) ∧
    (Q2Qc (3 # 4) = 1 →
       ∀ y, y ∈ series 5 1 (elems t_31524) 0 0 → sort_le x y).
Proof.
  apply (quantile_picks_series_entry t_31524 1 5 1 (Q2Qc (3 # 4))).
  - reflexivity.
  - lia.
  - by vm_compute.
  - lia.
  - lia.
  - by vm_compute.
  - by vm_compute.
Defined.


(** X15 for a drawn quantile level on the series 3, 1, 5, 2, 4. *)
Lemma var_hyd_char_draws_witness :
  draws (Rng (draws (constant_rng 0)) (S (cursor (constant_rng 0))))
  = draws (constant_rng 0) ∧
  cursor (Rng (draws (constant_rng 0)) (S (cursor (constant_rng 0))))
  = if decide ("quantile" = "quantile")
    then (if true then S (cursor (constant_rng 0)) else cursor (constant_rng 0))
    else cursor (constant_rng 0).
Proof.
  apply (var_hyd_char_draws t_31524 "quantile" (Fin (Q2Qc (1 # 4))) true
           (Fin (Q2Qc (1 # 20)), Fin (Q2Qc (19 # 20))) (constant_rng 0)
           (sorted_series_at 1 5 1 (elems t_31524)
              (Z.to_nat (code_quantile_index
                 (Q2Qc (1 # 20) + (Q2Qc (19 # 20) + - Q2Qc (1 # 20))
                                  * draws (constant_rng 0)
                                      (cursor (constant_rng 0))) 5)))).
  apply var_hyd_char_quantile_drawn; [reflexivity | lia].
Defined.

(** X17 on the series [3, 7] and [1, 4] with a distance matrix. *)
Lemma variogram_compare_nonneg_witness :
  ∃ v, variogram_compare spatial_loss
         (Tensor [2%nat] (Fin <$> [Qc_of_Z 3; Qc_of_Z 7]))
         (Tensor [2%nat] (Fin <$> [Qc_of_Z 1; Qc_of_Z 4])) = Ok v ∧
       finite v ∧ fnonneg v.
Proof.
  apply (variogram_compare_nonneg spatial_loss 2).
  - lia.
  - reflexivity.
  - reflexivity.
  - repeat constructor.
  - repeat constructor.
  - simpl. lia.
  - simpl. split_and!; [reflexivity | reflexivity |].
    repeat (apply Forall_cons; split; [split; [exact I | by vm_compute]|]).
    apply Forall_nil_2.
Defined.

(** X18 on the single examples 3 and 1. *)
Lemma variogram_compare_small_batches_witness :
  variogram_compare default_loss
    (Tensor [1%nat] [Fin (Qc_of_Z 3)]) (Tensor [1%nat] [Fin (Qc_of_Z 1)])
  = Ok (Fin 0) ∧
  variogram_compare default_loss (Tensor [0%nat] []) (Tensor [0%nat] [])
  = Ok NaN.
Proof.
  apply (variogram_compare_small_batches default_loss).
  - reflexivity.
  - exact I.
  - exact I.
  - simpl. lia.
Defined.
